(** * ldap_hunter: a shallow embedding of [ldap_hunter.py]

    The development follows the script function by function:
    [extract_ldap_attributes], [find_interesting_attributes],
    [save_raw_output] and [main].  Python's built-ins the script calls
    ([in], [startswith], [split], [strip], [sorted], text-mode file
    iteration, the UTF-8 codec) are modelled in the modules [Py] and
    [Utf8]; the file system, the console and the progress display form an
    explicit [world] threaded through a state-and-exception monad.  What
    the script takes from its surroundings (which messages the console
    can print, which place a path names, what [Path.exists] does with a
    path) is a parameter of the development, see [Environment]. *)

From stdpp Require Import gmap list sorting.
From Stdlib Require Import NArith Ascii.
From Stdlib Require String.
Import String.StringSyntax.
Delimit Scope string_scope with string.
From Stdlib.Strings Require Import Byte.

Local Open Scope N_scope.
Set Default Proof Using "Type".

(** ** Python strings and the built-ins the script uses *)

Module Py.

(** A Python [str] is a sequence of Unicode code points. *)
Abbreviation char := N (only parsing).
Abbreviation str := (list N) (only parsing).

(** ASCII literals of the source, as code points. *)
Definition lit (s : String.string) : str :=
  map N_of_ascii (String.list_ascii_of_string s).
Arguments lit s%_string.

Definition LF : char := 10.
Definition CR : char := 13.
Definition COLON : char := 58.
Definition HASH : char := 35.

(** [bool(s)] for a string: the empty string is falsy. *)
Definition truthy (s : str) : bool :=
  match s with [] => false | _ :: _ => true end.

(** [bool(l)] for a list. *)
Definition truthy_list {A} (l : list A) : bool :=
  match l with [] => false | _ :: _ => true end.

(** [s.startswith(p)]. *)
Fixpoint startswith (s p : str) {struct p} : bool :=
  match p, s with
  | [], _ => true
  | _ :: _, [] => false
  | a :: p', b :: s' => (a =? b) && startswith s' p'
  end.

(** [needle in hay]: substring test. *)
Fixpoint str_in (needle hay : str) : bool :=
  startswith hay needle ||
  match hay with
  | [] => false
  | _ :: hay' => str_in needle hay'
  end.

(** [l[0]] on the result of a split, which is never empty. *)
Definition item0 (l : list str) : str := hd [] l.

(** [s.split(sep, 1)] for a one-character separator: the text before the
    first [sep] and the text after it, or [s] alone when [sep] does not
    occur. *)
Fixpoint split1 (sep : char) (s : str) : list str :=
  match s with
  | [] => [[]]
  | c :: s' =>
      if c =? sep then [[]; s']
      else let parts := split1 sep s' in (c :: item0 parts) :: tl parts
  end.

(** [c.isspace()]: the characters [str.strip()] removes. *)
Definition isspace (c : char) : bool :=
  ((9 <=? c) && (c <=? 13)) || ((28 <=? c) && (c <=? 32)) ||
  (c =? 133) || (c =? 160) || (c =? 5760) ||
  ((8192 <=? c) && (c <=? 8202)) ||
  (c =? 8232) || (c =? 8233) || (c =? 8239) || (c =? 8287) || (c =? 12288).

Fixpoint lstrip (s : str) : str :=
  match s with
  | [] => []
  | c :: s' => if isspace c then lstrip s' else s
  end.

Definition rstrip (s : str) : str := rev (lstrip (rev s)).

(** [s.strip()]. *)
Definition strip (s : str) : str := rstrip (lstrip s).

(** [a <= b] on strings: lexicographic on code points, a proper prefix
    being smaller. *)
Fixpoint str_leb (a b : str) : bool :=
  match a, b with
  | [], _ => true
  | _ :: _, [] => false
  | x :: a', y :: b' => (x <? y) || ((x =? y) && str_leb a' b')
  end.

Definition str_le (a b : str) : Prop := str_leb a b = true.

#[export] Instance str_le_dec a b : Decision (str_le a b).
Proof. unfold str_le. apply _. Defined.

(** [sorted(l)] for a list of strings.  Python's sort is stable; on
    strings, where items that compare equal are identical, the result is
    the one sorted permutation of [l] (see [sorted_unique]). *)
Definition sorted (l : list str) : list str := merge_sort str_le l.

(** Text-mode reading with universal newlines: ["\r\n"] and a lone ["\r"]
    are read as ["\n"]. *)
Fixpoint translate_newlines (s : str) : str :=
  match s with
  | [] => []
  | c :: s' =>
      if c =? CR then
        match s' with
        | d :: s'' => if d =? LF then LF :: translate_newlines s''
                      else LF :: translate_newlines s'
        | [] => [LF]
        end
      else c :: translate_newlines s'
  end.

(** The lines a text file iterates over: each keeps its terminating
    ["\n"]; a last line without one is yielded as it is. *)
Fixpoint lines_from (cur : str) (s : str) : list str :=
  match s with
  | [] => match cur with [] => [] | _ :: _ => [rev cur] end
  | c :: s' =>
      if c =? LF then rev (c :: cur) :: lines_from [] s'
      else lines_from (c :: cur) s'
  end.

Definition readlines (text : str) : list str :=
  lines_from [] (translate_newlines text).

End Py.

Import Py.

(** ** The UTF-8 codec of [open(..., encoding='utf-8')] *)

Module Utf8.

Definition byte_of (n : N) : byte := default x00 (Byte.of_N n).

(** A Unicode scalar value: a code point that is not a surrogate. *)
Definition is_scalar (c : N) : bool :=
  (c <? 0xD800) || ((0xE000 <=? c) && (c <=? 0x10FFFF)).

(** Encoding one code point; surrogates (and values past U+10FFFF) have
    no UTF-8 form and make [write] raise [UnicodeEncodeError]. *)
Definition encode_char (c : N) : option (list byte) :=
  if c <? 0x80 then Some [byte_of c]
  else if c <? 0x800 then
    Some [byte_of (0xC0 + c / 64); byte_of (0x80 + c mod 64)]
  else if c <? 0x10000 then
    if (0xD800 <=? c) && (c <=? 0xDFFF) then None
    else Some [byte_of (0xE0 + c / 4096); byte_of (0x80 + (c / 64) mod 64);
               byte_of (0x80 + c mod 64)]
  else if c <=? 0x10FFFF then
    Some [byte_of (0xF0 + c / 262144); byte_of (0x80 + (c / 4096) mod 64);
          byte_of (0x80 + (c / 64) mod 64); byte_of (0x80 + c mod 64)]
  else None.

Fixpoint encode (s : list N) : option (list byte) :=
  match s with
  | [] => Some []
  | c :: s' =>
      match encode_char c, encode s' with
      | Some bs, Some bs' => Some (bs ++ bs')
      | _, _ => None
      end
  end.

Definition is_cont (b : N) : bool := (0x80 <=? b) && (b <=? 0xBF).

(** The admissible range of the second byte, which depends on the lead
    byte: it excludes overlong forms, surrogates and values past
    U+10FFFF. *)
Definition second_ok (b0 b1 : N) : bool :=
  if b0 =? 0xE0 then (0xA0 <=? b1) && (b1 <=? 0xBF)
  else if b0 =? 0xED then (0x80 <=? b1) && (b1 <=? 0x9F)
  else if b0 =? 0xF0 then (0x90 <=? b1) && (b1 <=? 0xBF)
  else if b0 =? 0xF4 then (0x80 <=? b1) && (b1 <=? 0x8F)
  else is_cont b1.

(** Decoding with [errors='ignore']: a well-formed sequence yields its
    code point; a byte that starts none is dropped and decoding resumes
    at the next byte.  (The decoder skips the whole ill-formed prefix at
    once; its continuation bytes start no sequence either, so dropping
    them one by one gives the same text.) *)
Fixpoint decode_from (bs : list N) : list N :=
  match bs with
  | [] => []
  | b0 :: r0 =>
      if b0 <? 0x80 then b0 :: decode_from r0
      else if (0xC2 <=? b0) && (b0 <=? 0xDF) then
        match r0 with
        | b1 :: r1 =>
            if is_cont b1
            then ((b0 - 0xC0) * 64 + (b1 - 0x80)) :: decode_from r1
            else decode_from r0
        | _ => decode_from r0
        end
      else if (0xE0 <=? b0) && (b0 <=? 0xEF) then
        match r0 with
        | b1 :: b2 :: r2 =>
            if second_ok b0 b1 && is_cont b2
            then ((b0 - 0xE0) * 4096 + (b1 - 0x80) * 64 + (b2 - 0x80))
                   :: decode_from r2
            else decode_from r0
        | _ => decode_from r0
        end
      else if (0xF0 <=? b0) && (b0 <=? 0xF4) then
        match r0 with
        | b1 :: b2 :: b3 :: r3 =>
            if second_ok b0 b1 && is_cont b2 && is_cont b3
            then ((b0 - 0xF0) * 262144 + (b1 - 0x80) * 4096
                  + (b2 - 0x80) * 64 + (b3 - 0x80)) :: decode_from r3
            else decode_from r0
        | _ => decode_from r0
        end
      else decode_from r0
  end.

Definition decode_ignore (bs : list byte) : list N :=
  decode_from (map Byte.to_N bs).

End Utf8.

Import Py.

(** ** The notions the specification is worded in *)

Module Spec.

(** [k] occurs in [s] as a substring. *)
Definition is_substring (k s : str) : Prop := ∃ l r, s = l ++ k ++ r.

(** [t] neither starts nor ends with a whitespace character. *)
Definition no_space_at_ends (t : str) : Prop :=
  (∀ c t', t = c :: t' → isspace c = false) ∧
  (∀ c t', t = t' ++ [c] → isspace c = false).

(** [t] is [s] with its leading and trailing whitespace removed. *)
Definition trimmed (s t : str) : Prop :=
  ∃ l r, s = l ++ t ++ r ∧
         Forall (λ c, isspace c = true) l ∧
         Forall (λ c, isspace c = true) r ∧
         no_space_at_ends t.

(** [p] is the text of [line] before its first colon. *)
Definition prefix_before_colon (line p : str) : Prop :=
  ∃ rest, line = p ++ COLON :: rest ∧ COLON ∉ p.

(** A comment line starts with ['#'] in its very first column. *)
Definition is_comment (line : str) : Prop := ∃ rest, line = HASH :: rest.

(** [line] contributes the attribute name [a]. *)
Definition contributes (line a : str) : Prop :=
  ¬ is_comment line ∧
  ∃ p, prefix_before_colon line p ∧ trimmed p a ∧ a ≠ [].

(** Lexicographic order on code points. *)
Inductive lex_le : str → str → Prop :=
| lex_le_nil b : lex_le [] b
| lex_le_lt x y a b : x < y → lex_le (x :: a) (y :: b)
| lex_le_eq x a b : lex_le a b → lex_le (x :: a) (x :: b).

(** A line without its terminating newline. *)
Definition chomp (line : str) : str :=
  match rev line with
  | c :: body => if c =? LF then rev body else line
  | [] => []
  end.

(** One attribute per line: the text of the lines [l], each terminated by
    a newline. *)
Definition one_per_line (l : list str) : str :=
  concat (map (λ a, a ++ [LF]) l).

End Spec.

Import Spec.


(** ** The world the script runs in *)

(** The exceptions the script can meet: those of the file operations, and
    [MarkupError], which the console raises on markup it cannot parse.
    All of them are subclasses of [Exception], so [except Exception]
    catches every [exn]. *)
Inductive exn :=
| FileNotFoundError (path : str)
| IsADirectoryError (path : str)
| PermissionError (path : str)
| OSError (errno : N)
| UnicodeEncodeError
| MarkupError.

(** A regular file: its permissions, its bytes, and an optional read
    fault [(n, e)]: iterating the file yields its first [n] lines and then
    raises [e] (an I/O error during the scan). *)
Record file := File {
  f_readable : bool;
  f_writable : bool;
  f_data : list byte;
  f_fault : option (nat * exn);
}.

Inductive node :=
| Directory
| Regular (f : file).

(** What [console.print] is called with, by call site.  [Banner],
    [AnalysisComplete] and [InterestingHeader] are fixed texts; the other
    messages put a path, an attribute name or the text of an exception
    into the markup, unescaped. *)
Inductive message :=
| Banner
| FileNotFound (file : str)
| ErrorReadingFile (e : exn)
| AnalysisComplete
| Statistics (total interesting : nat) (file : str)
| InterestingHeader
| InterestingItem (attr : str)
| SavedTo (path : str).

Inductive task_description :=
| AnalyzingDump
| HuntingInteresting.

(** What [Path(p).exists()] does with a path: it raises (an [OSError]
    other than "not found", such as a name that is too long), or answers
    [False] at once, or answers whether there is a file at the place [key]
    that the path, as [pathlib] normalises it, names. *)
Inductive stat_target :=
| StatRaises (e : exn)
| StatAbsent
| StatNode (key : str).

(** [w_fs] maps a place of the file system to what is there; several
    paths may name one place (see [resolve] below).  [w_create_error]
    tells whether creating a file at an empty place fails (missing parent
    directory, no permission); [w_console] is everything printed so far;
    [w_progress] holds the tasks added to the progress display, each with
    a flag that tells whether [update(task, completed=True)] was called on
    it. *)
Record world := World {
  w_fs : gmap (list N) node;
  w_create_error : list N → option exn;
  w_console : list message;
  w_progress : list (task_description * bool);
}.

(** ** A state-and-exception monad over the world *)

Inductive result (A : Type) :=
| Ok (a : A)
| Raised (e : exn).
Arguments Ok {A} a.
Arguments Raised {A} e.

Definition M (A : Type) : Type := world → result A * world.

#[export] Instance M_ret : MRet M := λ A a w, (Ok a, w).
#[export] Instance M_bind : MBind M := λ A B k m w,
  match m w with
  | (Ok a, w') => k a w'
  | (Raised e, w') => (Raised e, w')
  end.

Definition raise {A} (e : exn) : M A := λ w, (Raised e, w).

(** [try: body  except Exception as e: handler e]. *)
Definition try_except {A} (body : M A) (handler : exn → M A) : M A := λ w,
  match body w with
  | (Ok a, w') => (Ok a, w')
  | (Raised e, w') => handler e w'
  end.

(** [for x in l: body], the loop's local variables being [s]. *)
Fixpoint for_each {A S} (l : list A) (body : A → S → M S) (s : S) : M S :=
  match l with
  | [] => mret s
  | x :: l' => s' ← body x s; for_each l' body s'
  end.

(** [progress.add_task(description, total=None)]: the new task's id. *)
Definition progress_add_task (d : task_description) : M nat := λ w,
  (Ok (length (w_progress w)),
   World (w_fs w) (w_create_error w) (w_console w) (w_progress w ++ [(d, false)])).

(** [progress.update(task, completed=True)]. *)
Definition progress_update (task : nat) : M unit := λ w,
  (Ok (), World (w_fs w) (w_create_error w) (w_console w)
                (alter (λ t, (t.1, true)) task (w_progress w))).

(** An open text file being read: the lines it will yield and the
    exception, if any, that follows them. *)
Record reader := Reader {
  r_lines : list str;
  r_fault : option exn;
}.

(** [for line in f: body]. *)
Definition for_line {S} (f : reader) (body : str → S → M S) (s : S) : M S :=
  s' ← for_each (r_lines f) body s;
  match r_fault f with
  | None => mret s'
  | Some e => raise e
  end.

(** ** The surroundings of the script *)

Section Environment.

(** Three things the script relies on are no code of its own and are
    taken as given.

    [console_error m]: the exception, if any, that [console.print]
    raises on [m].  The console parses its argument as markup before it
    prints; on a text it cannot parse, such as one with a closing tag
    that closes nothing, it raises [MarkupError] and prints nothing.

    [resolve p]: the place of the file system that [open(p)] opens.
    Different paths may resolve to one place, as ["dump.ldif"] and
    ["./dump.ldif"] do, or a link and its target.

    [pathlib_stat p]: what [Path(p).exists()] does with [p]. *)
Variable console_error : message → option exn.
Variable resolve : str → str.
Variable pathlib_stat : str → stat_target.

(** [console.print(m)]. *)
Definition console_print (m : message) : M unit := λ w,
  match console_error m with
  | None => (Ok (), World (w_fs w) (w_create_error w) (w_console w ++ [m])
                          (w_progress w))
  | Some e => (Raised e, w)
  end.

(** [Path(p).exists()]. *)
Definition path_exists (p : str) : M bool := λ w,
  match pathlib_stat p with
  | StatRaises e => (Raised e, w)
  | StatAbsent => (Ok false, w)
  | StatNode key => (Ok (bool_decide (is_Some (w_fs w !! key))), w)
  end.

(** [open(p, 'r', encoding='utf-8', errors='ignore')]. *)
Definition open_read (p : str) : M reader := λ w,
  match w_fs w !! resolve p with
  | None => (Raised (FileNotFoundError p), w)
  | Some Directory => (Raised (IsADirectoryError p), w)
  | Some (Regular f) =>
      if f_readable f then
        let lines := readlines (Utf8.decode_ignore (f_data f)) in
        match f_fault f with
        | None => (Ok (Reader lines None), w)
        | Some (n, e) => (Ok (Reader (take n lines) (Some e)), w)
        end
      else (Raised (PermissionError p), w)
  end.

(** The file at the place that [p] names becomes [f]. *)
Definition set_file (p : str) (f : file) : M unit := λ w,
  (Ok (), World (<[resolve p := Regular f]> (w_fs w)) (w_create_error w)
                (w_console w) (w_progress w)).

(** [open(p, 'w', encoding='utf-8')]: the file is created or truncated. *)
Definition open_write (p : str) : M unit := λ w,
  match w_fs w !! resolve p with
  | None =>
      match w_create_error w (resolve p) with
      | Some e => (Raised e, w)
      | None => set_file p (File true true [] None) w
      end
  | Some Directory => (Raised (IsADirectoryError p), w)
  | Some (Regular f) =>
      if f_writable f
      then set_file p (File (f_readable f) true [] (f_fault f)) w
      else (Raised (PermissionError p), w)
  end.

(** [f.write(text)] on the file opened at [p]: the text is encoded at
    once, and what was written before a failing [write] stays in the
    file.  On POSIX the written ["\n"] is [os.linesep] and is stored as
    it is. *)
Definition file_write (p : str) (text : str) : M unit := λ w,
  match Utf8.encode text with
  | None => (Raised UnicodeEncodeError, w)
  | Some bs =>
      match w_fs w !! resolve p with
      | Some (Regular f) =>
          set_file p (File (f_readable f) (f_writable f) (f_data f ++ bs)
                           (f_fault f)) w
      | _ => (Ok (), w)
      end
  end.

(** ** The script *)

Section Hunter.

(** [str.lower()]: Python's full Unicode lowercasing, a table of the
    interpreter and not of the script. *)
Variable lower : str → str.

Definition show_banner : M unit := console_print Banner.

(** The body of the scanning loop of [extract_ldap_attributes]: the two
    [continue] tests, then the split, the strip and the [add]. *)
Definition scan_line (line : str) (attributes : gset (list N)) : gset (list N) :=
  if negb (str_in [COLON] line) || startswith line [HASH] then attributes
  else
    let attr := strip (item0 (split1 COLON line)) in
    if truthy attr then {[attr]} ∪ attributes else attributes.

(** The [progress] argument of the two phases is the display held in the
    world. *)
Definition extract_ldap_attributes (file_path : str) : M (gset (list N)) :=
  let attributes : gset (list N) := ∅ in
  task ← progress_add_task AnalyzingDump;
  try_except
    (f ← open_read file_path;
     attributes ← for_line f (λ line attributes, mret (scan_line line attributes))
                            attributes;
     progress_update task;;
     mret attributes)
    (λ e,
     progress_update task;;
     console_print (ErrorReadingFile e);;
     mret ∅).

Definition keywords : list str :=
  [lit "cascade"; lit "legacy"; lit "pwd"; lit "password"; lit "secret";
   lit "cred"; lit "hash"; lit "key"; lit "backup"; lit "admin";
   lit "service"; lit "old"; lit "temp"].

(** [any(keyword in attr.lower() for keyword in keywords)]. *)
Definition matches_keyword (attr : str) : bool :=
  existsb (λ keyword, str_in keyword (lower attr)) keywords.

(** The set is iterated in the order [elements] lists it; the result does
    not depend on that order (see [interesting_order_irrelevant]). *)
Definition find_interesting_attributes (attributes : gset (list N)) : M (list str) :=
  task ← progress_add_task HuntingInteresting;
  let interesting : list str := [] in
  interesting ← for_each (elements attributes)
      (λ attr interesting,
         mret (if matches_keyword attr then interesting ++ [attr]
               else interesting))
      interesting;
  progress_update task;;
  mret (sorted interesting).

Definition save_raw_output (file_path : str) (attributes : gset (list N))
    (interesting : list str) : M unit :=
  open_write file_path;;
  for_each (sorted (elements attributes))
    (λ attr _, file_write file_path (attr ++ [LF])) ().

(** The parsed command line: [args.file] and [args.output] ([None] when
    [-o] is absent). *)
Record arguments := Arguments_ {
  a_file : str;
  a_output : option str;
}.

(** [main] for a command line that parses to [args]; the banner is
    printed before the parse, which always succeeds here.
    [if args.output:] is false for [None] and for the empty string. *)
Definition main (args : arguments) : M unit :=
  show_banner;;
  found ← path_exists (a_file args);
  if negb found then
    console_print (FileNotFound (a_file args))
  else
    attributes ← extract_ldap_attributes (a_file args);
    interesting ← find_interesting_attributes attributes;
    console_print AnalysisComplete;;
    console_print (Statistics (size attributes) (length interesting) (a_file args));;
    (if truthy_list interesting then
       console_print InterestingHeader;;
       for_each interesting (λ attr _, console_print (InterestingItem attr)) ()
     else mret ());;
    match a_output args with
    | Some output =>
        if truthy output then
          save_raw_output output attributes interesting;;
          console_print (SavedTo output)
        else mret ()
    | None => mret ()
    end.

End Hunter.


(** ** Worlds and results of a run *)

(** The world after [m] was printed, after the messages [ms] were printed,
    and after a task [d] was added to the progress display and updated. *)
Definition say (w : world) (m : message) : world :=
  World (w_fs w) (w_create_error w) (w_console w ++ [m]) (w_progress w).

Definition say_all (w : world) (ms : list message) : world :=
  World (w_fs w) (w_create_error w) (w_console w ++ ms) (w_progress w).

Definition task_done (w : world) (d : task_description) : world :=
  World (w_fs w) (w_create_error w) (w_console w) (w_progress w ++ [(d, true)]).

(** Printing [ms] one after the other: the messages printed before the
    first one that the console refuses, and the exception of that one. *)
Fixpoint print_all (ms : list message) : list message * option exn :=
  match ms with
  | [] => ([], None)
  | m :: ms' =>
      match console_error m with
      | Some e => ([], Some e)
      | None => let r := print_all ms' in (m :: r.1, r.2)
      end
  end.

Definition printed (ms : list message) : list message := (print_all ms).1.
Definition print_error (ms : list message) : option exn := (print_all ms).2.

(** The console prints every message of [ms]. *)
Definition all_print (ms : list message) : bool :=
  forallb (λ m, match console_error m with None => true | Some _ => false end) ms.

(** Returning [a] unless [err] holds an exception. *)
Definition outcome {A} (a : A) (err : option exn) : result A :=
  match err with
  | None => Ok a
  | Some e => Raised e
  end.

(** The lines a regular file holds: its bytes decoded, newlines
    translated, split after each ["\n"]. *)
Definition file_lines (f : file) : list str :=
  readlines (Utf8.decode_ignore (f_data f)).

(** The scanning loop over a list of lines. *)
Definition scan_lines (lines : list str) (attributes : gset (list N)) : gset (list N) :=
  foldl (λ attributes line, scan_line line attributes) attributes lines.

(** Opening or reading the file that [p] names fails with [e]: there is
    nothing at its place, or a directory, or a file that may not be read,
    or a file whose scan is interrupted by an I/O error. *)
Inductive read_fails (w : world) (p : str) : exn → Prop :=
| fails_missing :
    w_fs w !! resolve p = None → read_fails w p (FileNotFoundError p)
| fails_directory :
    w_fs w !! resolve p = Some Directory → read_fails w p (IsADirectoryError p)
| fails_permission f :
    w_fs w !! resolve p = Some (Regular f) → f_readable f = false →
    read_fails w p (PermissionError p)
| fails_during_scan f n e :
    w_fs w !! resolve p = Some (Regular f) → f_readable f = true →
    f_fault f = Some (n, e) → read_fails w p e.

(** The file that [p] names can be read to its end. *)
Definition readable (w : world) (p : str) (f : file) : Prop :=
  w_fs w !! resolve p = Some (Regular f) ∧ f_readable f = true ∧
  f_fault f = None.

(** What reading the file that [p] names comes to: the exception that
    opening or scanning it raises, or the lines it yields to its end. *)
Definition read_outcome (w : world) (p : str) : exn + list str :=
  match w_fs w !! resolve p with
  | None => inl (FileNotFoundError p)
  | Some Directory => inl (IsADirectoryError p)
  | Some (Regular f) =>
      if f_readable f then
        match f_fault f with
        | None => inr (file_lines f)
        | Some (n, e) => inl e
        end
      else inl (PermissionError p)
  end.

(** The set [extract_ldap_attributes] returns, and what it tries to
    print. *)
Definition extracted (w : world) (p : str) : gset (list N) :=
  match read_outcome w p with
  | inr lines => scan_lines lines ∅
  | inl _ => ∅
  end.

Definition read_messages (w : world) (p : str) : list message :=
  match read_outcome w p with
  | inr _ => []
  | inl e => [ErrorReadingFile e]
  end.

(** The list [find_interesting_attributes] returns. *)
Definition interesting_of (lower : str → str) (attributes : gset (list N)) : list str :=
  sorted (filter (λ attr, matches_keyword lower attr = true) (elements attributes)).

(** What [main] prints once both phases are over. *)
Definition report (attributes : gset (list N)) (interesting : list str)
    (file : str) : list message :=
  [AnalysisComplete; Statistics (size attributes) (length interesting) file] ++
  (if truthy_list interesting
   then InterestingHeader :: map InterestingItem interesting
   else []).

(** Everything [main] prints, in this order, before it looks at
    [args.output], when the input exists. *)
Definition announced (lower : str → str) (file : str) (w : world) : list message :=
  Banner :: read_messages w file ++
    report (extracted w file) (interesting_of lower (extracted w file)) file.

(** The file that [p] names can be opened for writing. *)
Definition can_write (w : world) (p : str) : Prop :=
  match w_fs w !! resolve p with
  | None => w_create_error w (resolve p) = None
  | Some Directory => False
  | Some (Regular f) => f_writable f = true
  end.

(** The world after [bs] was written to a file opened with mode ['w'] at
    [p]. *)
Definition store (w : world) (p : str) (bs : list byte) : world :=
  let f := match w_fs w !! resolve p with
           | Some (Regular f) => File (f_readable f) true bs (f_fault f)
           | _ => File true true bs None
           end in
  World (<[resolve p := Regular f]> (w_fs w)) (w_create_error w) (w_console w)
        (w_progress w).

(** The world in which [main] has printed its report and is about to look
    at [args.output]. *)
Definition analysed (lower : str → str) (file : str) (w : world) : world :=
  World (w_fs w) (w_create_error w)
        (w_console w ++ announced lower file w)
        (w_progress w ++ [(AnalyzingDump, true); (HuntingInteresting, true)]).

(** [l1] and [l2] have the same text before their first colon and may
    differ after it. *)
Definition same_key (l1 l2 : str) : Prop :=
  ∃ p v1 v2, (COLON ∉ p) ∧ l1 = p ++ COLON :: v1 ∧ l2 = p ++ COLON :: v2.

(** ** A sample world and its surroundings *)

(** Lowercasing of the ASCII letters; [str.lower()] agrees with it on
    ASCII strings. *)
Definition ascii_lower (s : str) : str :=
  map (λ c, if (65 <=? c) && (c <=? 90) then c + 32 else c) s.

(** The data that a message puts into the console's markup: a path, an
    attribute name, or the path in the text of an exception. *)
Definition message_data (m : message) : str :=
  match m with
  | FileNotFound file | Statistics _ _ file | SavedTo file => file
  | InterestingItem attr => attr
  | ErrorReadingFile (FileNotFoundError path)
  | ErrorReadingFile (IsADirectoryError path)
  | ErrorReadingFile (PermissionError path) => path
  | _ => []
  end.

(** A console that cannot print a closing tag that closes nothing; for
    short, it refuses every message whose data holds ["[/"]. *)
Definition sample_console (m : message) : option exn :=
  if str_in (lit "[/") (message_data m) then Some MarkupError else None.

(** Paths are relative to one directory, and a leading ["./"] does not
    matter. *)
Definition sample_resolve (p : str) : str :=
  match p with
  | 46 :: 47 :: q => q
  | _ => p
  end.

(** [Path('')] is the current directory; a name of more than 255
    characters makes [stat] fail with [ENAMETOOLONG], which [exists]
    raises again. *)
Definition sample_stat (p : str) : stat_target :=
  match p with
  | [] => StatNode (lit ".")
  | _ => if (255 <? length p)%nat then StatRaises (OSError 36)
         else StatNode (sample_resolve p)
  end.

(** The dump of the specification's example. *)
Definition sample_lines : list str :=
  [lit "cn: John"; lit "userPassword: xyz"; lit "# comment"; lit "mail";
   lit "legacyFlag: true"].

Definition sample_file : file :=
  File true true (map Utf8.byte_of (one_per_line sample_lines)) None.

(** The same dump on a medium that fails after the first line. *)
Definition faulty_file : file :=
  File true true (f_data sample_file) (Some (1%nat, OSError 5)).

(** A dump whose only line has its ['#'] after two spaces. *)
Definition indented_file : file :=
  File true true (map Utf8.byte_of (one_per_line [lit "  #note: x"])) None.

(** A dump with an attribute whose name holds a closing tag. *)
Definition tagged_file : file :=
  File true true
    (map Utf8.byte_of (one_per_line [lit "cn: John"; lit "key[/x]: 1"])) None.

Definition sample_world : world :=
  World {[ lit "." := Directory;
           lit "dump.ldif" := Regular sample_file;
           lit "bad.ldif" := Regular faulty_file;
           lit "indented.ldif" := Regular indented_file;
           lit "tagged.ldif" := Regular tagged_file;
           lit "home" := Directory;
           lit "dumps[/old]" := Directory ]}
        (λ _, None) [] [].

(** The sample dump with Windows line ends and no newline at its end. *)
Definition crlf_file : file :=
  File true true
    (map Utf8.byte_of
       (lit "cn: John" ++ [CR; LF] ++ lit "userPassword: xyz" ++ [CR; LF] ++
        lit "# comment" ++ [CR; LF] ++ lit "mail" ++ [CR; LF] ++
        lit "legacyFlag: true"))
    None.

(** The sample dump with its lines in another order, one of them twice,
    and the sample dump with other values. *)
Definition shuffled_file : file :=
  File true true
    (map Utf8.byte_of
       (one_per_line [lit "legacyFlag: true"; lit "mail"; lit "cn: John";
                      lit "# comment"; lit "userPassword: xyz";
                      lit "cn: John"]))
    None.

Definition redacted_file : file :=
  File true true
    (map Utf8.byte_of
       (one_per_line [lit "cn:"; lit "userPassword: ****"; lit "# comment";
                      lit "mail"; lit "legacyFlag:false:0"]))
    None.

Definition second_world : world :=
  World {[ lit "crlf.ldif" := Regular crlf_file;
           lit "shuffled.ldif" := Regular shuffled_file;
           lit "redacted.ldif" := Regular redacted_file ]}
        (λ _, None) [] [].

(** ** Properties of the built-ins *)

(** The built-ins know nothing of the surroundings.  [set_solver] and
    [intuition] look at the whole context, so where they are used the
    parameters of [Environment] that play no part are cleared first. *)
Ltac forget_surroundings := clear console_error resolve pathlib_stat.
Ltac pure_set_solver := forget_surroundings; set_solver.

Section PyFacts.

Lemma elem_of_rev {A} (x : A) l : x ∈ rev l ↔ x ∈ l.
Proof. by rewrite !list_elem_of_In, <- in_rev. Qed.

Lemma startswith_spec s p : startswith s p = true ↔ ∃ r, s = p ++ r.
Proof.
  revert s; induction p as [|a p IH]; intros s; simpl.
  - split; [eauto | by destruct s].
  - destruct s as [|b s]; simpl.
    + split; [done | by intros [r [=]]].
    + rewrite andb_true_iff, N.eqb_eq, IH. split.
      * intros [-> [r ->]]. by exists r.
      * intros [r [= -> ->]]. eauto.
Qed.

Lemma str_in_spec k s : str_in k s = true ↔ is_substring k s.
Proof.
  unfold is_substring. induction s as [|c s IH]; simpl.
  - rewrite orb_false_r.
    assert (Hs := startswith_spec [] k).
    change (match k with [] => true | _ :: _ => false end) with (startswith [] k).
    rewrite Hs. split.
    + intros [r Hr]. by exists [], r.
    + intros ([|? l] & r & Hr); [by exists r | done].
  - rewrite orb_true_iff, IH.
    change (match k with
            | [] => true
            | a :: p' => (a =? c) && startswith s p'
            end) with (startswith (c :: s) k).
    rewrite startswith_spec. split.
    + intros [[r Hr] | (l & r & ->)].
      * by exists [], r.
      * by exists (c :: l), r.
    + intros ([|x l] & r & Hr).
      * left. by exists r.
      * right. injection Hr as -> ->. by exists l, r.
Qed.

Lemma str_in_char c s : str_in [c] s = true ↔ c ∈ s.
Proof.
  rewrite str_in_spec. split.
  - intros (l & r & ->). pure_set_solver.
  - intros (l & r & ->)%list_elem_of_split. by exists l, r.
Qed.

Lemma startswith_hash line : startswith line [HASH] = true ↔ is_comment line.
Proof. apply startswith_spec. Qed.

Lemma split1_found sep p rest :
  sep ∉ p → split1 sep (p ++ sep :: rest) = [p; rest].
Proof.
  induction p as [|c p IH]; intros Hp; simpl.
  - by rewrite N.eqb_refl.
  - apply not_elem_of_cons in Hp as [Hc Hp].
    destruct (N.eqb_spec c sep) as [->|_]; [done|].
    by rewrite IH.
Qed.

Lemma split1_absent sep s : sep ∉ s → split1 sep s = [s].
Proof.
  induction s as [|c s IH]; intros Hs; simpl; [done|].
  apply not_elem_of_cons in Hs as [Hc Hs].
  destruct (N.eqb_spec c sep) as [->|_]; [done|].
  by rewrite IH.
Qed.

(** Every string with a colon has exactly one prefix before its first
    colon, and [split(':', 1)[0]] is that prefix. *)
Lemma prefix_before_colon_exists line :
  COLON ∈ line → prefix_before_colon line (item0 (split1 COLON line)).
Proof.
  intros (p & rest & -> & Hp)%list_elem_of_split_l.
  rewrite split1_found by done. by exists rest.
Qed.

Lemma prefix_before_colon_item0 line p :
  prefix_before_colon line p → item0 (split1 COLON line) = p.
Proof. intros (rest & -> & Hp). by rewrite split1_found. Qed.

Lemma prefix_before_colon_has_colon line p :
  prefix_before_colon line p → COLON ∈ line.
Proof. intros (rest & -> & _). pure_set_solver. Qed.

(** *** [strip] *)

Lemma lstrip_spaces l s :
  Forall (λ c, isspace c = true) l → lstrip (l ++ s) = lstrip s.
Proof. induction 1 as [|c l Hc _ IH]; simpl; [done | by rewrite Hc]. Qed.

Lemma lstrip_nonspace c s : isspace c = false → lstrip (c :: s) = c :: s.
Proof. intros Hc. simpl. by rewrite Hc. Qed.

Lemma lstrip_split s :
  ∃ l, s = l ++ lstrip s ∧ Forall (λ c, isspace c = true) l ∧
       ∀ c t, lstrip s = c :: t → isspace c = false.
Proof.
  induction s as [|c s (l & Hs & Hl & Hhd)]; simpl.
  - exists []. by split_and!.
  - destruct (isspace c) eqn:Hc.
    + exists (c :: l). split_and!; [by rewrite Hs at 1 | by constructor | done].
    + exists []. split_and!; [done | done | by intros ? ? [= <- _]].
Qed.

Lemma strip_trimmed s : trimmed s (strip s).
Proof.
  unfold strip, rstrip.
  destruct (lstrip_split s) as (l & Hs & Hl & Hhd).
  destruct (lstrip_split (rev (lstrip s))) as (l' & Hr & Hl' & Hhd').
  set (u := lstrip s) in *. set (v := lstrip (rev u)) in *.
  assert (Hu : u = rev v ++ rev l').
  { by rewrite <- rev_app_distr, <- Hr, rev_involutive. }
  exists l, (rev l'). split_and!.
  - by rewrite <- Hu.
  - done.
  - by apply Forall_rev.
  - split.
    + intros c t' Ht. rewrite Ht in Hu. by apply (Hhd c (t' ++ rev l')).
    + intros c t' Ht. apply (Hhd' c (rev t')).
      by rewrite <- (rev_involutive v), Ht, rev_app_distr.
Qed.

Lemma trimmed_strip s t : trimmed s t → strip s = t.
Proof.
  intros (l & r & -> & Hl & Hr & Hfirst & Hlast).
  unfold strip, rstrip. rewrite lstrip_spaces by done.
  destruct t as [|c t].
  - simpl. replace (lstrip r) with (@nil N); [done|].
    symmetry. rewrite <- (app_nil_r r). by rewrite lstrip_spaces.
  - rewrite <- app_comm_cons, lstrip_nonspace by eauto.
    rewrite app_comm_cons, rev_app_distr, lstrip_spaces.
    2:{ by apply Forall_rev. }
    destruct (rev (c :: t)) as [|d t'] eqn:Hrev.
    + by apply (f_equal (@rev N)) in Hrev; rewrite rev_involutive in Hrev.
    + rewrite lstrip_nonspace; [by rewrite <- Hrev, rev_involutive|].
      apply (Hlast d (rev t')).
      by rewrite <- (rev_involutive (c :: t)), Hrev.
Qed.

(** [strip] computes the trimmed form, and nothing else is one. *)
Lemma trimmed_iff s t : trimmed s t ↔ strip s = t.
Proof. split; [apply trimmed_strip | intros <-; apply strip_trimmed]. Qed.

(** Trimming on the right keeps a first character that is no
    whitespace. *)
Lemma rstrip_head c t : isspace c = false → ∃ t', rstrip (c :: t) = c :: t'.
Proof.
  intros Hc. unfold rstrip.
  destruct (lstrip_split (rev (c :: t))) as (sp & Hsp & Hspace & _).
  set (v := lstrip (rev (c :: t))) in *.
  assert (c :: t = rev v ++ rev sp) as Heq.
  { by rewrite <- rev_app_distr, <- Hsp, rev_involutive. }
  destruct (rev v) as [|d v'].
  - exfalso. simpl in Heq.
    assert (c ∈ sp) as Hin by (apply elem_of_rev; rewrite <- Heq; by left).
    apply (proj1 (Forall_forall _ _) Hspace) in Hin. congruence.
  - injection Heq as -> _. eauto.
Qed.

(** *** The order on strings and [sorted] *)

Lemma str_leb_lex a b : str_leb a b = true ↔ lex_le a b.
Proof.
  split.
  - revert b; induction a as [|x a IH]; intros [|y b] H; simpl in H;
      [constructor | constructor | done |].
    apply orb_true_iff in H as [H%N.ltb_lt | [->%N.eqb_eq H]%andb_true_iff].
    + by constructor.
    + constructor 3. by apply IH.
  - induction 1 as [b | x y a b Hlt | x a b _ IH]; simpl.
    + done.
    + apply N.ltb_lt in Hlt. by rewrite Hlt.
    + by rewrite N.eqb_refl, IH, orb_true_r.
Qed.

#[export] Instance str_le_refl : Reflexive str_le.
Proof.
  intros a. unfold str_le.
  induction a as [|x a IH]; simpl; [done|].
  by rewrite N.eqb_refl, IH, orb_true_r.
Qed.

#[export] Instance str_le_total : Total str_le.
Proof.
  intros a. unfold str_le.
  induction a as [|x a IH]; intros [|y b]; simpl; auto.
  destruct (N.lt_trichotomy x y) as [Hlt | [-> | Hgt]].
  - left. apply N.ltb_lt in Hlt. by rewrite Hlt.
  - rewrite N.eqb_refl, N.ltb_irrefl. simpl. apply IH.
  - right. apply N.ltb_lt in Hgt. by rewrite Hgt.
Qed.

#[export] Instance str_le_trans : Transitive str_le.
Proof.
  intros a b c. unfold str_le. rewrite !str_leb_lex. intros Hab; revert c.
  induction Hab as [b | x y a b Hlt | x a b _ IH]; intros c Hbc.
  - constructor.
  - inversion Hbc; subst; constructor 2; lia.
  - inversion Hbc; subst; [by constructor 2 | constructor 3; auto].
Qed.

#[export] Instance str_le_antisym : AntiSymm (=) str_le.
Proof.
  intros a b. unfold str_le. rewrite !str_leb_lex. intros Hab.
  induction Hab as [b | x y a b Hlt | x a b _ IH]; intros Hba.
  - by inversion Hba.
  - inversion Hba; subst; lia.
  - inversion Hba; subst; [lia | f_equal; auto].
Qed.

Lemma sorted_Sorted l : Sorted str_le (sorted l).
Proof. apply (Sorted_merge_sort str_le). Qed.

Lemma sorted_Permutation l : sorted l ≡ₚ l.
Proof. apply (merge_sort_Permutation str_le). Qed.

Lemma sorted_elem_of l a : a ∈ sorted l ↔ a ∈ l.
Proof. by rewrite sorted_Permutation. Qed.

(** A list has one sorted permutation only, so the order in which the
    items were collected does not show in [sorted]'s result. *)
Lemma sorted_unique l l' :
  l ≡ₚ l' → Sorted str_le l' → sorted l = l'.
Proof.
  intros Hp Hs. apply (Sorted_unique str_le).
  - apply sorted_Sorted.
  - done.
  - by rewrite sorted_Permutation.
Qed.

Lemma sorted_permutation_invariant l l' : l ≡ₚ l' → sorted l = sorted l'.
Proof.
  intros Hp. apply sorted_unique; [|apply sorted_Sorted].
  by rewrite sorted_Permutation.
Qed.

Lemma Sorted_lex_le l : Sorted str_le l ↔ Sorted lex_le l.
Proof.
  split; induction 1 as [|x l Hs IH Hhd]; constructor; try done;
    destruct Hhd; constructor; by apply str_leb_lex.
Qed.

(** *** Lines of a text file *)

Lemma list_pair_ind {A} (P : list A → Prop) :
  P [] → (∀ x, P [x]) → (∀ x y l, P l → P (y :: l) → P (x :: y :: l)) →
  ∀ l, P l.
Proof.
  intros H0 H1 H2 l. cut (P l ∧ ∀ x, P (x :: l)); [by intros []|].
  induction l as [|y l [IHl IHy]]; split; auto.
Qed.

(** Universal newlines add no character but ["\n"], and leave no
    ["\r"]. *)
Lemma elem_of_translate_newlines c s :
  c ∈ translate_newlines s → c ∈ s ∨ c = LF.
Proof.
  revert c. induction s as [|x|x y s IHs IHy] using list_pair_ind;
    intros c; cbn [translate_newlines].
  - by intros []%elem_of_nil.
  - destruct (x =? CR); intros ->%list_elem_of_singleton; [by right | left; by left].
  - destruct (x =? CR).
    + destruct (y =? LF); intros [->|Hin]%elem_of_cons; try by right.
      * destruct (IHs _ Hin); [left; by do 2 right | by right].
      * destruct (IHy _ Hin); [left; by right | by right].
    + intros [->|Hin]%elem_of_cons; [left; by left|].
      destruct (IHy _ Hin); [left; by right | by right].
Qed.

Lemma translate_newlines_no_CR s : CR ∉ translate_newlines s.
Proof.
  induction s as [|x|x y s IHs IHy] using list_pair_ind;
    cbn [translate_newlines].
  - apply not_elem_of_nil.
  - destruct (N.eqb_spec x CR); rewrite list_elem_of_singleton; [done | congruence].
  - destruct (N.eqb_spec x CR).
    + destruct (y =? LF); rewrite not_elem_of_cons; by split.
    + rewrite not_elem_of_cons. split; [congruence | done].
Qed.

Lemma translate_newlines_id s : CR ∉ s → translate_newlines s = s.
Proof.
  induction s as [|x|x y s IHs IHy] using list_pair_ind;
    cbn [translate_newlines]; [done|..].
  - intros Hx%not_elem_of_cons. by destruct (N.eqb_spec x CR) as [->|]; [destruct Hx|].
  - intros [Hx Hy]%not_elem_of_cons.
    destruct (N.eqb_spec x CR) as [->|]; [done|]. f_equal. by apply IHy.
Qed.

(** A line holds ["\n"] as its last character only, and every character
    of a line is one of the text. *)
Lemma lines_from_newline_last cur s line :
  line ∈ lines_from cur s → LF ∉ cur →
  ∀ l r, line = l ++ LF :: r → r = [].
Proof.
  revert cur. induction s as [|c s IH]; intros cur; simpl.
  - destruct cur as [|x cur]; [by intros []%elem_of_nil|].
    intros ->%list_elem_of_singleton Hcur l r Heq. exfalso.
    apply Hcur. apply elem_of_rev. rewrite Heq. pure_set_solver.
  - destruct (N.eqb_spec c LF) as [->|Hc].
    + intros [->|Hin]%elem_of_cons Hcur l r Heq.
      * simpl in Heq. destruct r as [|y r _] using rev_ind; [done|]. exfalso.
        rewrite app_comm_cons, app_assoc in Heq.
        apply app_inj_tail in Heq as [Heq _].
        apply Hcur. apply elem_of_rev. rewrite Heq. pure_set_solver.
      * eapply (IH []); [done | apply not_elem_of_nil | done].
    + intros Hin Hcur. apply (IH (c :: cur)); [done|].
      rewrite not_elem_of_cons. split; [congruence | done].
Qed.

Lemma lines_from_chars cur s line c :
  line ∈ lines_from cur s → c ∈ line → c ∈ cur ∨ c ∈ s.
Proof.
  revert cur. induction s as [|x s IH]; intros cur; simpl.
  - destruct cur as [|y cur]; [by intros []%elem_of_nil|].
    intros ->%list_elem_of_singleton Hc. left. by apply elem_of_rev.
  - destruct (N.eqb_spec x LF) as [->|Hx].
    + intros [->|Hin]%elem_of_cons Hc.
      * simpl in Hc. apply elem_of_app in Hc as [Hc | ->%list_elem_of_singleton].
        -- left. by apply elem_of_rev.
        -- right. by left.
      * destruct (IH [] Hin Hc) as [[]%elem_of_nil|]. right. by right.
    + intros Hin Hc.
      destruct (IH (x :: cur) Hin Hc) as [[->|]%elem_of_cons|];
        [right; by left | by left | right; by right].
Qed.

Lemma lines_from_line cur a rest :
  LF ∉ a →
  lines_from cur (a ++ LF :: rest) = (rev cur ++ a ++ [LF]) :: lines_from [] rest.
Proof.
  revert cur. induction a as [|c a IH]; intros cur Ha; simpl.
  - done.
  - apply not_elem_of_cons in Ha as [Hc Ha].
    destruct (N.eqb_spec c LF) as [->|_]; [done|].
    rewrite IH by done. simpl. by rewrite <- app_assoc.
Qed.

(** Text written one item per line is read back as these lines. *)
Lemma readlines_one_per_line l :
  Forall (λ a, (LF ∉ a) ∧ (CR ∉ a)) l →
  readlines (one_per_line l) = map (λ a, a ++ [LF]) l.
Proof.
  intros Hl. unfold readlines. rewrite translate_newlines_id.
  - unfold one_per_line.
    induction Hl as [|a l [Ha _] _ IH]; simpl; [done|].
    rewrite <- app_assoc. simpl. by rewrite lines_from_line, IH.
  - unfold one_per_line. induction Hl as [|a l [_ Ha] _ IH]; simpl.
    + apply not_elem_of_nil.
    + rewrite !not_elem_of_app. split_and!; [done | | done].
      by intros ?%list_elem_of_singleton.
Qed.

Lemma chomp_inv line body :
  chomp line = body → line = body ∨ line = body ++ [LF].
Proof.
  unfold chomp. destruct (rev line) as [|c r] eqn:Hrev.
  - intros <-. left. by rewrite <- (rev_involutive line), Hrev.
  - destruct (N.eqb_spec c LF) as [->|_]; [|by left].
    intros <-. right. by rewrite <- (rev_involutive line), Hrev.
Qed.

End PyFacts.

(** ** Properties of the codec *)

Section Utf8Facts.

Import Utf8.

(** Names the quotient and the remainder of [c] by 64. *)
Local Ltac split64 c q r :=
  pose proof (N.div_mod' c 64);
  pose proof (N.mod_lt c 64 ltac:(lia));
  generalize dependent (c mod 64); intros r ? ?;
  generalize dependent (c / 64); intros q ?.

Local Ltac case_tests :=
  repeat match goal with
         | |- context [?a =? ?b] => destruct (N.eqb_spec a b)
         | |- context [?a <=? ?b] => destruct (N.leb_spec a b)
         | |- context [?a <? ?b] => destruct (N.ltb_spec a b)
         end;
  simpl; try done; try lia.

Lemma to_N_byte_of n : n ≤ 255 → Byte.to_N (byte_of n) = n.
Proof.
  intros Hn. unfold byte_of.
  destruct (Byte.of_N n) as [b|] eqn:Hb; simpl.
  - by apply Byte.to_of_N.
  - apply Byte.of_N_None_iff in Hb. lia.
Qed.

Lemma is_scalar_spec c :
  is_scalar c = true ↔ c < 0xD800 ∨ 0xE000 ≤ c ≤ 0x10FFFF.
Proof.
  unfold is_scalar.
  by rewrite orb_true_iff, andb_true_iff, N.ltb_lt, !N.leb_le.
Qed.

Lemma encode_char_scalar c : is_scalar c = true → is_Some (encode_char c).
Proof.
  rewrite is_scalar_spec. unfold encode_char. intros Hc.
  destruct (N.ltb_spec c 0x80); [eauto|].
  destruct (N.ltb_spec c 0x800); [eauto|].
  destruct (N.ltb_spec c 0x10000).
  - destruct (N.leb_spec 0xD800 c), (N.leb_spec c 0xDFFF); simpl; eauto. lia.
  - destruct (N.leb_spec c 0x10FFFF); [eauto | lia].
Qed.

Lemma encode_app s t :
  encode (s ++ t) =
  match encode s, encode t with
  | Some a, Some b => Some (a ++ b)
  | _, _ => None
  end.
Proof.
  induction s as [|c s IH]; simpl.
  - by destruct (encode t).
  - rewrite IH. destruct (encode_char c), (encode s), (encode t); try done.
    by rewrite app_assoc.
Qed.

Lemma encode_scalar s :
  Forall (λ c, is_scalar c = true) s → is_Some (encode s).
Proof.
  induction 1 as [|c s Hc _ [bs' Hs]]; simpl; [eauto|].
  destruct (encode_char_scalar c Hc) as [bs Hbs]. rewrite Hbs, Hs. eauto.
Qed.

(** The decoder on one well-formed sequence. *)
Lemma decode_from_1 b r : b < 0x80 → decode_from (b :: r) = b :: decode_from r.
Proof.
  intros Hb%N.ltb_lt. cbn [decode_from]. by rewrite Hb.
Qed.

Lemma is_cont_spec b : is_cont b = true ↔ 0x80 ≤ b ≤ 0xBF.
Proof. unfold is_cont. by rewrite andb_true_iff, !N.leb_le. Qed.

Lemma decode_from_2 b0 b1 r :
  0xC2 ≤ b0 ≤ 0xDF → 0x80 ≤ b1 ≤ 0xBF →
  decode_from (b0 :: b1 :: r) =
  ((b0 - 0xC0) * 64 + (b1 - 0x80)) :: decode_from r.
Proof.
  intros [H1 H2] Hc%is_cont_spec. cbn [decode_from].
  assert ((b0 <? 0x80) = false) as -> by (apply N.ltb_ge; lia).
  apply N.leb_le in H1, H2. by rewrite H1, H2, Hc.
Qed.

Lemma decode_from_3 b0 b1 b2 r :
  0xE0 ≤ b0 ≤ 0xEF → second_ok b0 b1 = true → 0x80 ≤ b2 ≤ 0xBF →
  decode_from (b0 :: b1 :: b2 :: r) =
  ((b0 - 0xE0) * 4096 + (b1 - 0x80) * 64 + (b2 - 0x80)) :: decode_from r.
Proof.
  intros [H1 H2] Hs Hc%is_cont_spec. cbn [decode_from].
  assert ((b0 <? 0x80) = false) as -> by (apply N.ltb_ge; lia).
  assert ((b0 <=? 0xDF) = false) as -> by (apply N.leb_gt; lia).
  apply N.leb_le in H1, H2. by rewrite andb_false_r, H1, H2, Hs, Hc.
Qed.

Lemma decode_from_4 b0 b1 b2 b3 r :
  0xF0 ≤ b0 ≤ 0xF4 → second_ok b0 b1 = true →
  0x80 ≤ b2 ≤ 0xBF → 0x80 ≤ b3 ≤ 0xBF →
  decode_from (b0 :: b1 :: b2 :: b3 :: r) =
  ((b0 - 0xF0) * 262144 + (b1 - 0x80) * 4096 + (b2 - 0x80) * 64 + (b3 - 0x80))
    :: decode_from r.
Proof.
  intros [H1 H2] Hs Hc2%is_cont_spec Hc3%is_cont_spec. cbn [decode_from].
  assert ((b0 <? 0x80) = false) as -> by (apply N.ltb_ge; lia).
  assert ((b0 <=? 0xDF) = false) as -> by (apply N.leb_gt; lia).
  assert ((b0 <=? 0xEF) = false) as -> by (apply N.leb_gt; lia).
  apply N.leb_le in H1, H2.
  by rewrite !andb_false_r, H1, H2, Hs, Hc2, Hc3.
Qed.

(** Decoding what was encoded gives the code point back. *)
Lemma decode_encode_char c bs rest :
  encode_char c = Some bs →
  decode_from (map Byte.to_N bs ++ rest) = c :: decode_from rest.
Proof.
  unfold encode_char. intros Henc.
  destruct (N.ltb_spec c 0x80).
  { injection Henc as <-. cbn [map app].
    rewrite to_N_byte_of by lia. by apply decode_from_1. }
  destruct (N.ltb_spec c 0x800).
  { injection Henc as <-. cbn [map app].
    split64 c q1 r1.
    rewrite !to_N_byte_of by lia. rewrite decode_from_2 by lia.
    f_equal. lia. }
  destruct (N.ltb_spec c 0x10000).
  { destruct (N.leb_spec 0xD800 c), (N.leb_spec c 0xDFFF);
      simpl in Henc; try done; injection Henc as <-; cbn [map app].
    all: replace (c / 4096) with (c / 64 / 64) by (by rewrite N.Div0.div_div).
    all: split64 c q1 r1; split64 q1 q2 r2.
    all: rewrite !to_N_byte_of by lia.
    all: rewrite decode_from_3;
      [f_equal; lia | lia | unfold second_ok, is_cont; case_tests | lia]. }
  destruct (N.leb_spec c 0x10FFFF); [|done].
  injection Henc as <-. cbn [map app].
  replace (c / 262144) with (c / 64 / 64 / 64) by (by rewrite !N.Div0.div_div).
  replace (c / 4096) with (c / 64 / 64) by (by rewrite N.Div0.div_div).
  split64 c q1 r1; split64 q1 q2 r2; split64 q2 q3 r3.
  rewrite !to_N_byte_of by lia.
  rewrite decode_from_4;
    [f_equal; lia | lia | unfold second_ok, is_cont; case_tests | lia | lia].
Qed.

Lemma decode_encode s bs : encode s = Some bs → decode_ignore bs = s.
Proof.
  unfold decode_ignore. revert bs.
  induction s as [|c s IH]; intros bs; simpl.
  - by intros [= <-].
  - destruct (encode_char c) as [bc|] eqn:Hc; [|done].
    destruct (encode s) as [bs'|]; [|done]. intros [= <-].
    rewrite map_app, (decode_encode_char c bc _ Hc). f_equal. by apply IH.
Qed.

(** The decoder yields scalar values only: overlong forms, surrogates and
    values past U+10FFFF are among the bytes it drops. *)
Local Ltac case_hyp_tests :=
  repeat match goal with
         | H : context [?a =? ?b] |- _ => destruct (N.eqb_spec a b)
         | H : context [?a <=? ?b] |- _ => destruct (N.leb_spec a b)
         | H : context [?a <? ?b] |- _ => destruct (N.ltb_spec a b)
         end;
  simpl in *; try done.

Lemma scalar_1 b : (b <? 0x80) = true → is_scalar b = true.
Proof. intros. case_hyp_tests. apply is_scalar_spec. lia. Qed.

Lemma scalar_2 b0 b1 :
  (0xC2 <=? b0) && (b0 <=? 0xDF) = true → is_cont b1 = true →
  is_scalar ((b0 - 0xC0) * 64 + (b1 - 0x80)) = true.
Proof.
  unfold is_cont. intros. case_hyp_tests. apply is_scalar_spec. lia.
Qed.

Lemma scalar_3 b0 b1 b2 :
  (0xE0 <=? b0) && (b0 <=? 0xEF) = true →
  second_ok b0 b1 && is_cont b2 = true →
  is_scalar ((b0 - 0xE0) * 4096 + (b1 - 0x80) * 64 + (b2 - 0x80)) = true.
Proof.
  unfold second_ok, is_cont. intros. case_hyp_tests; apply is_scalar_spec; lia.
Qed.

Lemma scalar_4 b0 b1 b2 b3 :
  (0xF0 <=? b0) && (b0 <=? 0xF4) = true →
  second_ok b0 b1 && is_cont b2 && is_cont b3 = true →
  is_scalar ((b0 - 0xF0) * 262144 + (b1 - 0x80) * 4096
             + (b2 - 0x80) * 64 + (b3 - 0x80)) = true.
Proof.
  unfold second_ok, is_cont. intros. case_hyp_tests; apply is_scalar_spec; lia.
Qed.

Lemma decode_from_scalar bs : Forall (λ c, is_scalar c = true) (decode_from bs).
Proof.
  assert (∀ n bs, (length bs ≤ n)%nat →
                  Forall (λ c, is_scalar c = true) (decode_from bs)) as Hind;
    [|by apply (Hind (length bs))].
  clear bs. induction n as [|n IH]; intros [|b0 r0] Hlen; simpl in Hlen;
    [constructor | lia | constructor |].
  assert (∀ r, (length r ≤ length r0)%nat →
               Forall (λ c, is_scalar c = true) (decode_from r)) as Hrec.
  { intros r Hr. apply IH. lia. }
  clear IH Hlen. cbn [decode_from].
  destruct (b0 <? 0x80) eqn:H1.
  { constructor; [by apply scalar_1 | by apply Hrec]. }
  destruct ((0xC2 <=? b0) && (b0 <=? 0xDF)) eqn:H2.
  { destruct r0 as [|b1 r1]; [by apply Hrec|].
    destruct (is_cont b1) eqn:Hc; [|by apply Hrec].
    constructor; [by apply scalar_2 | apply Hrec; simpl; lia]. }
  destruct ((0xE0 <=? b0) && (b0 <=? 0xEF)) eqn:H3.
  { destruct r0 as [|b1 [|b2 r2]]; [by apply Hrec..|].
    destruct (second_ok b0 b1 && is_cont b2) eqn:Hc; [|by apply Hrec].
    constructor; [by apply scalar_3 | apply Hrec; simpl; lia]. }
  destruct ((0xF0 <=? b0) && (b0 <=? 0xF4)) eqn:H4; [|by apply Hrec].
  destruct r0 as [|b1 [|b2 [|b3 r3]]]; [by apply Hrec..|].
  destruct (second_ok b0 b1 && is_cont b2 && is_cont b3) eqn:Hc; [|by apply Hrec].
  constructor; [by apply scalar_4 | apply Hrec; simpl; lia].
Qed.

Lemma decode_ignore_scalar bs :
  Forall (λ c, is_scalar c = true) (decode_ignore bs).
Proof. apply decode_from_scalar. Qed.

End Utf8Facts.

(** ** How the script's functions run *)

Section RunFacts.

Lemma say_all_nil w : say_all w [] = w.
Proof. destruct w. unfold say_all. simpl. by rewrite app_nil_r. Qed.

Lemma say_say_all w m ms : say_all (say w m) ms = say_all w (m :: ms).
Proof. unfold say_all, say. simpl. by rewrite <- app_assoc. Qed.

Lemma alter_last {A} (g : A → A) (l : list A) (x : A) :
  alter g (length l) (l ++ [x]) = l ++ [g x].
Proof. induction l as [|y l IH]; simpl; [done | by f_equal]. Qed.

Lemma run_bind {A B} (m : M A) (k : A → M B) w :
  (m ≫= k) w =
  match m w with
  | (Ok a, w') => k a w'
  | (Raised e, w') => (Raised e, w')
  end.
Proof. done. Qed.

Lemma print_run m w :
  console_print m w =
  match console_error m with
  | None => (Ok (), say w m)
  | Some e => (Raised e, w)
  end.
Proof. done. Qed.

Lemma print_ok m w :
  console_error m = None → console_print m w = (Ok (), say w m).
Proof. intros H. by rewrite print_run, H. Qed.

(** *** Printing a list of messages *)

Lemma all_print_error ms : all_print ms = true ↔ print_error ms = None.
Proof.
  unfold print_error.
  induction ms as [|m ms IH]; simpl; [done|].
  destruct (console_error m); simpl; [done | exact IH].
Qed.

Lemma all_print_printed ms : all_print ms = true → printed ms = ms.
Proof.
  unfold printed.
  induction ms as [|m ms IH]; simpl; [done|].
  destruct (console_error m); simpl; [done|]. intros H. by rewrite IH.
Qed.

Lemma all_print_app ms1 ms2 :
  all_print (ms1 ++ ms2) = all_print ms1 && all_print ms2.
Proof. apply forallb_app. Qed.

Lemma all_print_elem ms m :
  all_print ms = true → m ∈ ms → console_error m = None.
Proof.
  unfold all_print. rewrite forallb_forall. intros H Hin%list_elem_of_In.
  apply H in Hin. by destruct (console_error m).
Qed.

Lemma printed_prefix ms : printed ms `prefix_of` ms.
Proof.
  unfold printed.
  induction ms as [|m ms IH]; simpl; [done|].
  destruct (console_error m); simpl; [apply prefix_nil | by apply prefix_cons].
Qed.

Lemma elem_of_printed ms m : m ∈ printed ms → m ∈ ms.
Proof.
  intros Hin. destruct (printed_prefix ms) as [k Hk]. rewrite Hk.
  apply elem_of_app. by left.
Qed.

(** A loop whose body only updates its local variables is a fold. *)
Lemma for_each_pure {A S} (g : A → S → S) (l : list A) (s : S) w :
  for_each l (λ x s, mret (g x s)) s w = (Ok (foldl (λ s x, g x s) s l), w).
Proof.
  revert s; induction l as [|x l IH]; intros s; simpl; [done|].
  unfold mbind, M_bind, mret, M_ret at 1. simpl. apply IH.
Qed.

Lemma for_each_print (g : str → message) (l : list str) w :
  for_each l (λ x _, console_print (g x)) () w =
  (outcome () (print_error (map g l)), say_all w (printed (map g l))).
Proof.
  unfold print_error, printed.
  revert w; induction l as [|x l IH]; intros w; simpl.
  - unfold mret, M_ret. by rewrite say_all_nil.
  - rewrite run_bind, print_run.
    destruct (console_error (g x)) as [e|]; simpl.
    + by rewrite say_all_nil.
    + by rewrite IH, say_say_all.
Qed.

Lemma print_items (interesting : list str) w :
  (if truthy_list interesting
   then console_print InterestingHeader;;
        for_each interesting (λ attr _, console_print (InterestingItem attr)) ()
   else mret ()) w
  = let items := if truthy_list interesting
                  then InterestingHeader :: map InterestingItem interesting
                  else [] in
    (outcome () (print_error items), say_all w (printed items)).
Proof.
  destruct interesting as [|a l]; cbn [truthy_list]; cbv zeta.
  - unfold mret, M_ret. by rewrite say_all_nil.
  - rewrite run_bind, print_run. unfold print_error, printed.
    cbn [print_all]. destruct (console_error InterestingHeader) as [e|].
    + by rewrite say_all_nil.
    + rewrite for_each_print. cbn [fst snd]. by rewrite say_say_all.
Qed.

(** [extract_ldap_attributes], run: a file read to its end gives the
    scanned set; any failure is printed and gives the empty set, unless
    the console refuses the message, whose exception then leaves the
    function. *)
Lemma extract_run p w :
  extract_ldap_attributes p w =
  (outcome (extracted w p) (print_error (read_messages w p)),
   say_all (task_done w AnalyzingDump) (printed (read_messages w p))).
Proof.
  assert (∀ e w0,
    (progress_update (length (w_progress w0));;
     console_print (ErrorReadingFile e);; mret (∅ : gset (list N)))
      (World (w_fs w0) (w_create_error w0) (w_console w0)
             (w_progress w0 ++ [(AnalyzingDump, false)]))
    = (outcome ∅ (print_error [ErrorReadingFile e]),
       say_all (task_done w0 AnalyzingDump) (printed [ErrorReadingFile e])))
    as Hhandler.
  { intros e w0. rewrite run_bind. unfold progress_update at 1.
    cbn [w_fs w_create_error w_console w_progress]. rewrite alter_last.
    rewrite run_bind, print_run. unfold print_error, printed. cbn [print_all].
    destruct (console_error (ErrorReadingFile e)) as [e'|]; cbn [fst snd outcome].
    - fold (task_done w0 AnalyzingDump). by rewrite say_all_nil.
    - done. }
  unfold extracted, read_messages, read_outcome.
  unfold extract_ldap_attributes, try_except.
  rewrite run_bind. unfold progress_add_task at 1. cbv beta iota.
  rewrite run_bind. unfold open_read at 1. cbn [w_fs].
  destruct (w_fs w !! resolve p) as [[|f]|] eqn:Hp.
  1,3: apply Hhandler.
  destruct (f_readable f); [|apply Hhandler].
  destruct (f_fault f) as [[n e]|].
  - unfold for_line. rewrite run_bind, run_bind, for_each_pure.
    unfold raise. cbv beta iota. cbn [r_fault]. apply Hhandler.
  - unfold for_line. rewrite run_bind, run_bind, for_each_pure.
    cbn [r_fault r_lines]. unfold mret at 1, M_ret at 1. cbv beta iota.
    rewrite run_bind. unfold progress_update at 1.
    cbn [w_fs w_create_error w_console w_progress]. rewrite alter_last.
    unfold mret, M_ret, print_error, printed. cbn [print_all fst snd outcome].
    fold (task_done w AnalyzingDump). by rewrite say_all_nil.
Qed.

(** Whether the exception of a failed read can be printed decides how
    [extract_ldap_attributes] ends. *)
Lemma extract_failed p w e :
  read_outcome w p = inl e →
  extract_ldap_attributes p w =
  match console_error (ErrorReadingFile e) with
  | None => (Ok ∅, say (task_done w AnalyzingDump) (ErrorReadingFile e))
  | Some e' => (Raised e', task_done w AnalyzingDump)
  end.
Proof.
  intros He. rewrite extract_run. unfold extracted, read_messages.
  rewrite He. unfold print_error, printed. cbn [print_all].
  destruct (console_error (ErrorReadingFile e)); cbn [fst snd outcome];
    [by rewrite say_all_nil | done].
Qed.

Lemma extract_read p w lines :
  read_outcome w p = inr lines →
  extract_ldap_attributes p w =
  (Ok (scan_lines lines ∅), task_done w AnalyzingDump).
Proof.
  intros He. rewrite extract_run. unfold extracted, read_messages.
  rewrite He. unfold print_error, printed. cbn [print_all fst snd outcome].
  by rewrite say_all_nil.
Qed.

Lemma read_fails_outcome w p e : read_fails w p e ↔ read_outcome w p = inl e.
Proof.
  unfold read_outcome. split.
  - intros [H | H | f H Hr | f n e' H Hr Hf]; rewrite H; try done.
    + by rewrite Hr.
    + by rewrite Hr, Hf.
  - destruct (w_fs w !! resolve p) as [[|f]|] eqn:Hp.
    + intros [= <-]. by constructor.
    + destruct (f_readable f) eqn:Hr.
      * destruct (f_fault f) as [[n e']|] eqn:Hf; [|done].
        intros [= <-]. by econstructor 4.
      * intros [= <-]. by econstructor 3.
    + intros [= <-]. by constructor.
Qed.

Lemma readable_outcome w p f :
  readable w p f → read_outcome w p = inr (file_lines f).
Proof. intros (H & Hr & Hf). unfold read_outcome. by rewrite H, Hr, Hf. Qed.

(** *** The scanning loop *)

(** A comment line and a line without a colon leave the set as it is. *)
Lemma scan_line_skips line attributes :
  is_comment line ∨ COLON ∉ line → scan_line line attributes = attributes.
Proof.
  intros [Hc | Hn]; unfold scan_line.
  - apply startswith_hash in Hc. rewrite Hc. by rewrite orb_true_r.
  - destruct (str_in [COLON] line) eqn:Hin; [|done].
    by apply str_in_char in Hin.
Qed.

Lemma contributes_iff line a :
  contributes line a ↔
  str_in [COLON] line = true ∧ startswith line [HASH] = false ∧
  a = strip (item0 (split1 COLON line)) ∧ a ≠ [].
Proof.
  unfold contributes. rewrite str_in_char. split.
  - intros (Hc & p & Hp & Ht & Hne).
    rewrite (prefix_before_colon_item0 _ _ Hp), (trimmed_strip _ _ Ht).
    split_and!; [by eapply prefix_before_colon_has_colon | | done | done].
    destruct (startswith line [HASH]) eqn:Hs; [|done].
    by apply startswith_hash in Hs.
  - intros (Hin & Hs & -> & Hne). split.
    + intros Hc%startswith_hash. congruence.
    + exists (item0 (split1 COLON line)).
      split_and!; [by apply prefix_before_colon_exists | apply strip_trimmed | done].
Qed.

Lemma elem_of_scan_line line attributes a :
  a ∈ scan_line line attributes ↔ a ∈ attributes ∨ contributes line a.
Proof.
  forget_surroundings.
  rewrite contributes_iff. unfold scan_line.
  destruct (str_in [COLON] line), (startswith line [HASH]); simpl;
    try (intuition congruence).
  destruct (strip (item0 (split1 COLON line))) as [|c t] eqn:Hattr; simpl.
  - intuition congruence.
  - rewrite elem_of_union, elem_of_singleton. intuition congruence.
Qed.

Lemma elem_of_scan_lines lines attributes a :
  a ∈ scan_lines lines attributes ↔
  a ∈ attributes ∨ ∃ line, line ∈ lines ∧ contributes line a.
Proof.
  unfold scan_lines. revert attributes.
  induction lines as [|line lines IH]; intros attributes; simpl.
  - split; [auto | intros [?|(? & []%elem_of_nil & _)]; done].
  - rewrite IH, elem_of_scan_line. split.
    + intros [[?|?]|(l & ? & ?)]; [by left | right.. ].
      * exists line. split; [left | done].
      * exists l. split; [by right | done].
    + intros [?|(l & [->|?]%elem_of_cons & ?)]; [by left; left | by left; right |].
      right. by exists l.
Qed.

(** Lines that are skipped can be removed from the input. *)
Lemma scan_lines_skip before line after attributes :
  is_comment line ∨ COLON ∉ line →
  scan_lines (before ++ line :: after) attributes =
  scan_lines (before ++ after) attributes.
Proof.
  intros H. unfold scan_lines. rewrite !foldl_app. simpl.
  by rewrite scan_line_skips.
Qed.

(** The line terminator plays no part in the scan. *)
Lemma scan_line_newline body collected :
  scan_line (body ++ [LF]) collected = scan_line body collected.
Proof.
  unfold scan_line.
  assert (startswith (body ++ [LF]) [HASH] = startswith body [HASH]) as ->.
  { destruct body; reflexivity. }
  destruct (str_in [COLON] body) eqn:Hin.
  - apply str_in_char in Hin as Hc.
    apply list_elem_of_split_l in Hc as (q & r & -> & Hq).
    assert (str_in [COLON] ((q ++ COLON :: r) ++ [LF]) = true) as ->.
    { apply str_in_char. pure_set_solver. }
    by rewrite <- app_assoc, <- app_comm_cons, !split1_found.
  - assert (str_in [COLON] (body ++ [LF]) = false) as ->; [|done].
    destruct (str_in [COLON] (body ++ [LF])) eqn:Hin'; [|done].
    apply str_in_char in Hin'.
    apply elem_of_app in Hin' as [Hc%str_in_char | Hc%list_elem_of_singleton];
      [congruence | done].
Qed.

Lemma scan_line_chomp line collected :
  scan_line line collected = scan_line (chomp line) collected.
Proof.
  destruct (chomp_inv line (chomp line) eq_refl) as [Heq | Heq].
  - by rewrite <- Heq.
  - rewrite Heq at 1. apply scan_line_newline.
Qed.

Lemma scan_lines_chomp lines collected :
  scan_lines lines collected = scan_lines (map chomp lines) collected.
Proof.
  unfold scan_lines. revert collected.
  induction lines as [|line lines IH]; intros collected; simpl; [done|].
  by rewrite IH, scan_line_chomp.
Qed.

(** *** The keyword matcher *)

Lemma matches_keyword_spec lower attr :
  matches_keyword lower attr = true ↔
  ∃ keyword, keyword ∈ keywords ∧ is_substring keyword (lower attr).
Proof.
  unfold matches_keyword. rewrite existsb_exists.
  split; intros (k & Hk & Hs); exists k.
  - by rewrite list_elem_of_In, <- str_in_spec.
  - by rewrite <- list_elem_of_In, str_in_spec.
Qed.

Lemma collect_matching (m : str → bool) (l acc : list str) :
  foldl (λ interesting attr, if m attr then interesting ++ [attr] else interesting)
        acc l
  = acc ++ filter (λ attr, m attr = true) l.
Proof.
  revert acc; induction l as [|a l IH]; intros acc; simpl.
  - by rewrite app_nil_r.
  - rewrite IH. destruct (m a) eqn:Hm.
    + rewrite filter_cons_True by done. by rewrite <- app_assoc.
    + rewrite filter_cons_False; [done | congruence].
Qed.

Lemma find_interesting_run lower attributes w :
  find_interesting_attributes lower attributes w =
  (Ok (interesting_of lower attributes), task_done w HuntingInteresting).
Proof.
  unfold find_interesting_attributes, interesting_of.
  unfold mbind, M_bind at 1. unfold progress_add_task at 1. simpl.
  unfold mbind, M_bind at 1. rewrite for_each_pure, collect_matching. simpl.
  unfold mbind, M_bind, progress_update, mret, M_ret, task_done. simpl.
  by rewrite alter_last.
Qed.

(** Only the lowercase forms of the set's attributes matter. *)
Lemma interesting_of_ext (lower lower' : str → str) (attributes : gset (list N)) :
  (∀ a, a ∈ attributes → lower a = lower' a) →
  interesting_of lower attributes = interesting_of lower' attributes.
Proof.
  intros Hext. unfold interesting_of. f_equal.
  assert (∀ a, a ∈ elements attributes → lower a = lower' a) as Hl.
  { intros a Ha. apply Hext. by apply elem_of_elements. }
  induction (elements attributes) as [|a l IH]; [done|].
  assert (matches_keyword lower a = matches_keyword lower' a) as Hm.
  { unfold matches_keyword. by rewrite (Hl a) by left. }
  assert (filter (λ attr, matches_keyword lower attr = true) l =
          filter (λ attr, matches_keyword lower' attr = true) l) as Hrest.
  { apply IH. intros b Hb. apply Hl. by right. }
  destruct (matches_keyword lower a) eqn:Ha.
  - rewrite !filter_cons_True by congruence. by f_equal.
  - rewrite !filter_cons_False by congruence. done.
Qed.

(** Whatever order the set is iterated in, the sorted result is the
    same. *)
Lemma interesting_order_irrelevant (lower : str → str) (attributes : gset (list N)) (order : list str) :
  order ≡ₚ elements attributes →
  sorted (filter (λ attr, matches_keyword lower attr = true) order) =
  interesting_of lower attributes.
Proof. intros Hp. apply sorted_permutation_invariant. by rewrite Hp. Qed.

(** *** What an extracted attribute is made of *)

Lemma trimmed_chars p a c : trimmed p a → c ∈ a → c ∈ p.
Proof. intros (l & r & -> & _) Hc. pure_set_solver. Qed.

(** An attribute taken from a file holds scalar values only, and neither
    ["\n"] nor ["\r"]. *)
Lemma file_attribute_chars f a :
  a ∈ scan_lines (file_lines f) ∅ →
  Forall (λ c, Utf8.is_scalar c = true) a ∧ (LF ∉ a) ∧ (CR ∉ a).
Proof.
  rewrite elem_of_scan_lines.
  intros [Hin | (line & Hline & _ & p & (rest & -> & Hp) & Ht & _)];
    [by apply not_elem_of_empty in Hin|].
  unfold file_lines, readlines in Hline.
  assert (∀ c, c ∈ a → c ∈ translate_newlines (Utf8.decode_ignore (f_data f)))
    as Hchars.
  { intros c Hc. eapply trimmed_chars in Hc; [|done].
    destruct (lines_from_chars [] _ _ c Hline) as [[]%elem_of_nil|]; [|done].
    pure_set_solver. }
  split_and!.
  - apply Forall_forall. intros c Hc.
    destruct (elem_of_translate_newlines _ _ (Hchars c Hc)) as [Hin | ->]; [|done].
    by eapply (proj1 (Forall_forall _ _) (decode_ignore_scalar (f_data f))).
  - intros Hin. eapply trimmed_chars in Hin; [|done].
    apply list_elem_of_split in Hin as (l & r & ->).
    rewrite <- app_assoc in Hline. simpl in Hline.
    by eapply lines_from_newline_last in Hline;
      [ | apply not_elem_of_nil | reflexivity]; destruct r.
  - intros Hin%Hchars. by apply translate_newlines_no_CR in Hin.
Qed.

Lemma extracted_chars w p a :
  a ∈ extracted w p →
  Forall (λ c, Utf8.is_scalar c = true) a ∧ (LF ∉ a) ∧ (CR ∉ a).
Proof.
  unfold extracted, read_outcome.
  destruct (w_fs w !! resolve p) as [[|f]|]; try by intros ?%not_elem_of_empty.
  destruct (f_readable f); [|by intros ?%not_elem_of_empty].
  destruct (f_fault f) as [[n e]|]; [by intros ?%not_elem_of_empty|].
  apply file_attribute_chars.
Qed.

Lemma encode_one_per_line l :
  Forall (Forall (λ c, Utf8.is_scalar c = true)) l →
  is_Some (Utf8.encode (one_per_line l)).
Proof.
  intros Hl. apply encode_scalar. unfold one_per_line.
  induction Hl as [|a l Ha _ IH]; simpl; [done|].
  rewrite !Forall_app. split_and!; [done | by repeat constructor | done].
Qed.

(** *** Writing the output file *)

Lemma write_lines_run p l bs w f :
  w_fs w !! resolve p = Some (Regular f) →
  Utf8.encode (one_per_line l) = Some bs →
  for_each l (λ attr _, file_write p (attr ++ [LF])) () w =
  (Ok (),
   World (<[resolve p := Regular (File (f_readable f) (f_writable f) (f_data f ++ bs)
                               (f_fault f))]> (w_fs w))
         (w_create_error w) (w_console w) (w_progress w)).
Proof.
  revert bs w f; induction l as [|a l IH]; intros bs w f Hp; simpl.
  - intros [= <-]. unfold mret, M_ret. rewrite app_nil_r.
    destruct w, f; simpl in *. by rewrite insert_id.
  - intros Henc. unfold one_per_line in Henc. simpl in Henc.
    rewrite encode_app in Henc.
    destruct (Utf8.encode (a ++ [LF])) as [b1|] eqn:H1; [|done].
    destruct (Utf8.encode (concat _)) as [b2|] eqn:H2; [|done].
    injection Henc as <-. unfold mbind, M_bind, file_write at 1.
    rewrite H1, Hp. unfold set_file at 1.
    erewrite IH; [| by simpl; rewrite lookup_insert_eq | done].
    simpl. by rewrite insert_insert_eq, app_assoc.
Qed.

Lemma save_run p attributes interesting w bs :
  can_write w p →
  Utf8.encode (one_per_line (sorted (elements attributes))) = Some bs →
  save_raw_output p attributes interesting w = (Ok (), store w p bs).
Proof.
  unfold can_write, save_raw_output, store, open_write. intros Hw Hbs.
  unfold mbind, M_bind.
  destruct (w_fs w !! resolve p) as [[|f]|] eqn:Hp; [done| |].
  - rewrite Hw. unfold set_file at 1.
    erewrite write_lines_run; [| by simpl; rewrite lookup_insert_eq | done].
    simpl. by rewrite insert_insert_eq.
  - rewrite Hw. unfold set_file at 1.
    erewrite write_lines_run; [| by simpl; rewrite lookup_insert_eq | done].
    simpl. by rewrite insert_insert_eq.
Qed.

(** Opening the output fails when the target cannot be written: nothing
    is stored and the exception leaves [save_raw_output]. *)
Lemma save_refused p attributes interesting w :
  ¬ can_write w p →
  ∃ e, save_raw_output p attributes interesting w = (Raised e, w).
Proof.
  unfold can_write, save_raw_output, open_write, mbind, M_bind. intros Hw.
  destruct (w_fs w !! resolve p) as [[|f]|]; [eauto| |].
  - destruct (f_writable f); [done | eauto].
  - destruct (w_create_error w (resolve p)); [eauto | done].
Qed.

(** *** [main] *)

(** [Path(p).exists()] leaves the world as it is and looks at the files
    only. *)
Lemma path_exists_run p w : path_exists p w = ((path_exists p w).1, w).
Proof. unfold path_exists. by destruct (pathlib_stat p). Qed.

Lemma path_exists_files p w w' :
  w_fs w' = w_fs w → (path_exists p w').1 = (path_exists p w).1.
Proof. intros H. unfold path_exists. destruct (pathlib_stat p); by rewrite ?H. Qed.

Lemma main_banner_refused lower args w e :
  console_error Banner = Some e → main lower args w = (Raised e, w).
Proof.
  intros H. unfold main, show_banner. by rewrite run_bind, print_run, H.
Qed.

Lemma main_stat_raises lower args w e :
  console_error Banner = None →
  (path_exists (a_file args) w).1 = Raised e →
  main lower args w = (Raised e, say w Banner).
Proof.
  intros Hb Hp. unfold main, show_banner.
  rewrite run_bind, print_ok by done. rewrite run_bind, path_exists_run.
  by rewrite (path_exists_files _ w), Hp.
Qed.

Lemma main_not_found lower args w :
  console_error Banner = None →
  (path_exists (a_file args) w).1 = Ok false →
  main lower args w =
  match console_error (FileNotFound (a_file args)) with
  | None => (Ok (), say_all w [Banner; FileNotFound (a_file args)])
  | Some e => (Raised e, say w Banner)
  end.
Proof.
  intros Hb Hp. unfold main, show_banner.
  rewrite run_bind, print_ok by done. rewrite run_bind, path_exists_run.
  rewrite (path_exists_files _ w), Hp by done. cbn [negb].
  rewrite print_run. destruct (console_error _); [done|].
  unfold say_all, say. cbn. by rewrite <- app_assoc.
Qed.

(** When the input exists, [main] stops at the first message that the
    console refuses, and otherwise reaches the test of [args.output]. *)
Lemma main_found lower args w :
  console_error Banner = None →
  (path_exists (a_file args) w).1 = Ok true →
  main lower args w =
  let file := a_file args in
  let attributes := extracted w file in
  let interesting := interesting_of lower attributes in
  match print_error (read_messages w file) with
  | Some e =>
      (Raised e, World (w_fs w) (w_create_error w) (w_console w ++ [Banner])
                       (w_progress w ++ [(AnalyzingDump, true)]))
  | None =>
      match print_error (report attributes interesting file) with
      | Some e =>
          (Raised e,
           World (w_fs w) (w_create_error w)
                 (w_console w ++ Banner :: read_messages w file ++
                    printed (report attributes interesting file))
                 (w_progress w ++ [(AnalyzingDump, true);
                                   (HuntingInteresting, true)]))
      | None =>
          match a_output args with
          | Some output =>
              if truthy output then
                (save_raw_output output attributes interesting;;
                 console_print (SavedTo output)) (analysed lower file w)
              else (Ok (), analysed lower file w)
          | None => (Ok (), analysed lower file w)
          end
      end
  end.
Proof.
  intros Hb Hp. unfold main, show_banner.
  rewrite run_bind, print_ok by done. rewrite run_bind, path_exists_run.
  rewrite (path_exists_files _ w), Hp by done. cbn [negb].
  rewrite run_bind, extract_run.
  change (extracted (say w Banner) (a_file args))
    with (extracted w (a_file args)).
  change (read_messages (say w Banner) (a_file args))
    with (read_messages w (a_file args)).
  cbv zeta.
  set (attributes := extracted w (a_file args)).
  set (interesting := interesting_of lower attributes).
  destruct (print_error (read_messages w (a_file args))) as [e|] eqn:Hread;
    cbn [outcome].
  { f_equal. unfold read_messages, print_error, printed in *.
    destruct (read_outcome w (a_file args)) as [e0|]; [|done].
    cbn [print_all] in *.
    destruct (console_error (ErrorReadingFile e0)); [|done].
    unfold say_all, task_done, say. cbn. by rewrite app_nil_r. }
  apply all_print_error in Hread as Hread'.
  rewrite (all_print_printed _ Hread').
  rewrite run_bind, find_interesting_run. cbv beta iota.
  fold interesting.
  unfold report, print_error, printed. cbn [app print_all].
  rewrite run_bind, print_run.
  destruct (console_error AnalysisComplete) as [e|].
  { f_equal. unfold say_all, task_done, say. cbn.
    by rewrite <- !app_assoc, app_nil_r. }
  rewrite run_bind, print_run.
  destruct (console_error (Statistics _ _ _)) as [e|].
  { cbn [fst snd]. f_equal. unfold say_all, task_done, say. cbn.
    by rewrite <- !app_assoc. }
  rewrite run_bind, print_items. cbv zeta. cbn [fst snd].
  unfold print_error, printed.
  set (items := if truthy_list interesting
                then InterestingHeader :: map InterestingItem interesting
                else []).
  destruct (print_all items) as [shown err] eqn:Hitems. cbn [fst snd].
  destruct err as [e|]; cbn [outcome].
  { f_equal. unfold say_all, task_done, say. cbn.
    by rewrite <- !app_assoc. }
  assert (shown = items) as ->.
  { change shown with (shown, @None exn).1. rewrite <- Hitems.
    apply all_print_printed, all_print_error. unfold print_error.
    by rewrite Hitems. }
  match goal with
  | |- match _ with Some _ => _ | None => _ end ?w0 = _ =>
      replace w0 with (analysed lower (a_file args) w)
  end.
  - by destruct (a_output args) as [output|]; [destruct (truthy output)|].
  - unfold analysed, announced, report, say_all, say, task_done.
    cbn [w_fs w_create_error w_console w_progress].
    fold attributes. fold interesting. fold items.
    f_equal; rewrite <- ?app_assoc; try done.
Qed.

(** When every message of the report prints, [main] reaches the test of
    [args.output]. *)
Lemma main_reported lower args w :
  (path_exists (a_file args) w).1 = Ok true →
  all_print (announced lower (a_file args) w) = true →
  main lower args w =
  let attributes := extracted w (a_file args) in
  let interesting := interesting_of lower attributes in
  match a_output args with
  | Some output =>
      if truthy output then
        (save_raw_output output attributes interesting;;
         console_print (SavedTo output)) (analysed lower (a_file args) w)
      else (Ok (), analysed lower (a_file args) w)
  | None => (Ok (), analysed lower (a_file args) w)
  end.
Proof.
  intros Hp Hall.
  assert (console_error Banner = None) as Hb.
  { apply (all_print_elem _ _ Hall). by left. }
  unfold announced in Hall. change (Banner :: ?l) with ([Banner] ++ l) in Hall.
  rewrite !all_print_app in Hall.
  apply andb_true_iff in Hall as [_ [Hr Hrep%all_print_error]%andb_true_iff].
  apply all_print_error in Hr.
  rewrite main_found by done. cbv zeta. by rewrite Hr, Hrep.
Qed.

End RunFacts.
(** ** Further properties of the script *)

Section MoreFacts.

Lemma elem_of_not_nil {A} (x : A) (l : list A) : x ∈ l → l ≠ [].
Proof. intros Hin ->. by apply elem_of_nil in Hin. Qed.

Lemma can_write_dec w p : can_write w p ∨ ¬ can_write w p.
Proof.
  clear console_error pathlib_stat.
  unfold can_write. destruct (w_fs w !! resolve p) as [[|f]|].
  - tauto.
  - destruct (f_writable f); intuition congruence.
  - destruct (w_create_error w (resolve p)); intuition congruence.
Qed.

Lemma extracted_well_formed w p a :
  a ∈ extracted w p → a ≠ [] ∧ (COLON ∉ a) ∧ no_space_at_ends a.
Proof.
  unfold extracted. destruct (read_outcome w p) as [e|lines];
    [by intros ?%not_elem_of_empty|].
  rewrite elem_of_scan_lines.
  intros [Hin | (line & _ & _ & q & (rest & -> & Hq) & Ht & Hne)];
    [by apply not_elem_of_empty in Hin|].
  split_and!; [done | | by destruct Ht as (_ & _ & _ & _ & _ & ?)].
  intros Hc. by eapply trimmed_chars in Hc.
Qed.

Lemma extracted_encodable w p :
  is_Some (Utf8.encode (one_per_line (sorted (elements (extracted w p))))).
Proof.
  apply encode_one_per_line, Forall_forall.
  intros a Ha%sorted_elem_of%elem_of_elements.
  by apply extracted_chars in Ha as [? _].
Qed.

Lemma written_lines w p bs :
  Utf8.encode (one_per_line (sorted (elements (extracted w p)))) = Some bs →
  readlines (Utf8.decode_ignore bs) =
  map (λ a, a ++ [LF]) (sorted (elements (extracted w p))).
Proof.
  intros Hbs. rewrite (decode_encode _ _ Hbs).
  apply readlines_one_per_line, Forall_forall.
  intros a Ha%sorted_elem_of%elem_of_elements.
  by apply extracted_chars in Ha as (_ & ? & ?).
Qed.

Lemma scan_lines_no_colon lines collected :
  Forall (λ line, COLON ∉ line) lines → scan_lines lines collected = collected.
Proof.
  unfold scan_lines. induction 1 as [|line lines Hline _ IH]; simpl; [done|].
  rewrite scan_line_skips by (by right). apply IH.
Qed.

(** The set depends on which lines the file holds, not on their order or
    number. *)
Lemma scan_lines_same_lines (lines lines' : list str) :
  (list_to_set lines : gset (list N)) = list_to_set lines' →
  scan_lines lines ∅ = scan_lines lines' ∅.
Proof.
  intros Heq. apply set_eq. intros a. rewrite !elem_of_scan_lines.
  assert (∀ line, line ∈ lines ↔ line ∈ lines') as Hiff.
  { intros line. by rewrite <- !(elem_of_list_to_set (C := gset (list N))), Heq. }
  split; (intros [? | (line & Hin & ?)]; [by left | right]);
    exists line; (split; [by apply Hiff | done]).
Qed.

Lemma scan_line_same_key l1 l2 collected :
  same_key l1 l2 → scan_line l1 collected = scan_line l2 collected.
Proof.
  intros (p & v1 & v2 & Hp & -> & ->). unfold scan_line.
  assert (∀ v, str_in [COLON] (p ++ COLON :: v) = true) as Hin.
  { intros v. apply str_in_char. pure_set_solver. }
  rewrite !Hin, !split1_found by done.
  assert (∀ v, startswith (p ++ COLON :: v) [HASH] = startswith (p ++ [COLON]) [HASH])
    as Hs by (intros v; by destruct p).
  by rewrite (Hs v1), (Hs v2).
Qed.

Lemma scan_lines_same_keys lines lines' collected :
  Forall2 (λ l1 l2, l1 = l2 ∨ same_key l1 l2) lines lines' →
  scan_lines lines collected = scan_lines lines' collected.
Proof.
  unfold scan_lines. intros H. revert collected.
  induction H as [|l1 l2 lines lines' Hl _ IH]; intros collected; simpl; [done|].
  rewrite IH. f_equal. destruct Hl as [-> | Hk]; [done|].
  by apply scan_line_same_key.
Qed.

(** What the report is made of. *)
Lemma elem_of_report attributes (interesting : list str) file m :
  m ∈ report attributes interesting file ↔
  m = AnalysisComplete ∨
  m = Statistics (size attributes) (length interesting) file ∨
  (interesting ≠ [] ∧
   (m = InterestingHeader ∨ ∃ a, a ∈ interesting ∧ m = InterestingItem a)).
Proof.
  forget_surroundings.
  unfold report. cbn [app]. rewrite !elem_of_cons.
  destruct interesting as [|a l]; cbn [truthy_list].
  - rewrite elem_of_nil. intuition congruence.
  - rewrite elem_of_cons, list_elem_of_fmap. split.
    + intros [?|[?|[?|(b & -> & ?)]]]; eauto 10.
    + intros [?|[?|[_ [?|(b & ? & ->)]]]]; eauto 10.
Qed.

Lemma elem_of_read_messages w p m :
  m ∈ read_messages w p → ∃ e, m = ErrorReadingFile e.
Proof.
  unfold read_messages. destruct (read_outcome w p) as [e|];
    [|by intros ?%elem_of_nil].
  intros ->%list_elem_of_singleton. eauto.
Qed.

Lemma interesting_count (lower : str → str) (attributes : gset (list N)) :
  (length (interesting_of lower attributes) ≤ size attributes)%nat.
Proof.
  unfold interesting_of. rewrite (Permutation_length (sorted_Permutation _)).
  apply length_filter.
Qed.

Lemma elem_of_interesting_of (lower : str → str) (attributes : gset (list N)) a :
  a ∈ interesting_of lower attributes ↔
  a ∈ attributes ∧
  ∃ keyword, keyword ∈ keywords ∧ is_substring keyword (lower a).
Proof.
  forget_surroundings.
  unfold interesting_of.
  rewrite sorted_elem_of, list_elem_of_filter, elem_of_elements.
  rewrite matches_keyword_spec. tauto.
Qed.

(** Writing stops at the first name that has no UTF-8 form; the names
    before it are in the file. *)
Lemma write_lines_stop p before a after bs w f :
  w_fs w !! resolve p = Some (Regular f) →
  Utf8.encode (one_per_line before) = Some bs →
  Utf8.encode (a ++ [LF]) = None →
  for_each (before ++ a :: after) (λ attr _, file_write p (attr ++ [LF])) () w =
  (Raised UnicodeEncodeError,
   World (<[resolve p := Regular (File (f_readable f) (f_writable f) (f_data f ++ bs)
                               (f_fault f))]> (w_fs w))
         (w_create_error w) (w_console w) (w_progress w)).
Proof.
  intros Hp Hbs Ha. revert bs w f Hp Hbs.
  induction before as [|b before IH]; intros bs w f Hp; simpl.
  - intros [= <-]. rewrite run_bind. unfold file_write at 1. rewrite Ha.
    rewrite app_nil_r. destruct w, f; simpl in *. by rewrite insert_id.
  - intros Henc. unfold one_per_line in Henc. simpl in Henc.
    rewrite encode_app in Henc.
    destruct (Utf8.encode (b ++ [LF])) as [b1|] eqn:H1; [|done].
    destruct (Utf8.encode (concat _)) as [b2|] eqn:H2; [|done].
    injection Henc as <-. rewrite run_bind. unfold file_write at 1.
    rewrite H1, Hp. unfold set_file at 1.
    erewrite IH; [| by simpl; rewrite lookup_insert_eq | done].
    simpl. by rewrite insert_insert_eq, app_assoc.
Qed.

(** No message of the report confirms a save. *)
Lemma announced_no_saved lower file w path :
  SavedTo path ∉ announced lower file w.
Proof.
  unfold announced. rewrite not_elem_of_cons, not_elem_of_app. split_and!.
  - done.
  - by intros [e [=]]%elem_of_read_messages.
  - rewrite elem_of_report.
    intros [[=] | [[=] | (_ & [[=] | (a & _ & [=])])]].
Qed.

(** What the tail of [main] does once the report is printed. *)
Lemma save_and_confirm (attributes : gset (list N)) interesting output bs w :
  can_write w output →
  Utf8.encode (one_per_line (sorted (elements attributes))) = Some bs →
  (save_raw_output output attributes interesting;;
   console_print (SavedTo output)) w =
  match console_error (SavedTo output) with
  | None => (Ok (), say (store w output bs) (SavedTo output))
  | Some e => (Raised e, store w output bs)
  end.
Proof.
  intros Hw Hbs. by rewrite run_bind, (save_run _ _ _ _ bs), print_run.
Qed.

(** Every run of [main] ends in one of these ways: without a write, the
    files as they were and a beginning of its messages printed; or with
    the output stored. *)
Lemma main_cases lower args w :
  (∃ r shown tasks,
     main lower args w =
       (r, World (w_fs w) (w_create_error w) (w_console w ++ shown)
                 (w_progress w ++ tasks)) ∧
     (shown `prefix_of` [Banner; FileNotFound (a_file args)] ∨
      shown `prefix_of` announced lower (a_file args) w) ∧
     tasks `prefix_of` [(AnalyzingDump, true); (HuntingInteresting, true)]) ∨
  (∃ output bs r shown,
     a_output args = Some output ∧ output ≠ [] ∧
     (path_exists (a_file args) w).1 = Ok true ∧
     all_print (announced lower (a_file args) w) = true ∧
     can_write w output ∧
     Utf8.encode (one_per_line (sorted (elements (extracted w (a_file args)))))
       = Some bs ∧
     main lower args w =
       (r, say_all (store (analysed lower (a_file args) w) output bs) shown) ∧
     shown `prefix_of` [SavedTo output] ∧
     (r, shown) = match console_error (SavedTo output) with
                  | None => (Ok (), [SavedTo output])
                  | Some e => (Raised e, [])
                  end).
Proof.
  destruct (console_error Banner) as [e|] eqn:Hb.
  { left. rewrite (main_banner_refused _ _ _ e) by done.
    exists (Raised e), [], []. rewrite !app_nil_r.
    split; [by destruct w|]. split; [left|]; apply prefix_nil. }
  destruct ((path_exists (a_file args) w).1) as [[|]|e] eqn:Hp.
  - rewrite main_found by done. cbv zeta.
    destruct (print_error (read_messages w (a_file args))) as [e|] eqn:Hread.
    { left. eexists _, _, _. split; [done|]. split.
      - right. unfold announced. by eexists.
      - by exists [(HuntingInteresting, true)]. }
    destruct (print_error (report _ _ _)) as [e|] eqn:Hrep.
    { left. eexists _, _, _. split; [done|]. split; [right | done].
      unfold announced. apply prefix_cons, prefix_app, printed_prefix. }
    assert (all_print (announced lower (a_file args) w) = true) as Hall.
    { unfold announced. change (Banner :: ?l) with ([Banner] ++ l).
      rewrite !all_print_app. apply all_print_error in Hread, Hrep.
      rewrite Hread, Hrep. cbn. by rewrite Hb. }
    assert (∃ (r' : result unit) shown' tasks',
      (Ok (), analysed lower (a_file args) w) =
      (r', World (w_fs w) (w_create_error w) (w_console w ++ shown')
                 (w_progress w ++ tasks')) ∧
      (shown' `prefix_of` [Banner; FileNotFound (a_file args)] ∨
       shown' `prefix_of` announced lower (a_file args) w) ∧
      tasks' `prefix_of` [(AnalyzingDump, true); (HuntingInteresting, true)])
      as Hdone.
    { unfold analysed. eexists _, _, _. split; [done|]. split; [by right | done]. }
    destruct (a_output args) as [[|c output]|] eqn:Hout; [by left | | by left].
    cbn [truthy].
    destruct (can_write_dec (analysed lower (a_file args) w) (c :: output))
      as [Hw | Hw].
    + right. destruct (extracted_encodable w (a_file args)) as [bs Hbs].
      rewrite (save_and_confirm _ _ _ bs) by done.
      exists (c :: output), bs.
      destruct (console_error (SavedTo (c :: output))) as [e|].
      * exists (Raised e), []. rewrite say_all_nil.
        split_and!; try done. apply prefix_nil.
      * exists (Ok ()), [SavedTo (c :: output)]. split_and!; done.
    + left.
      destruct (save_refused (c :: output) (extracted w (a_file args))
                  (interesting_of lower (extracted w (a_file args)))
                  (analysed lower (a_file args) w) Hw) as [e He].
      rewrite run_bind, He. unfold analysed. eexists _, _, _.
      split; [done|]. split; [by right | done].
  - left. rewrite main_not_found by done.
    destruct (console_error (FileNotFound _)).
    + eexists _, [Banner], []. unfold say. rewrite app_nil_r.
      split; [done|]. split; [left; by exists [FileNotFound (a_file args)]
                             | apply prefix_nil].
    + exists (Ok ()), [Banner; FileNotFound (a_file args)], [].
      unfold say_all. rewrite app_nil_r.
      split; [done|]. split; [by left | apply prefix_nil].
  - left. rewrite (main_stat_raises _ _ _ e) by done.
    eexists _, [Banner], []. unfold say. rewrite app_nil_r.
    split; [done|]. split; [left; by exists [FileNotFound (a_file args)]
                           | apply prefix_nil].
Qed.

End MoreFacts.

(** ** The extractor *)

(** C1.  For a file that can be read to its end, [extract_ldap_attributes]
    returns exactly the set of the non-empty, whitespace-trimmed prefixes
    before the first colon of the lines that hold a colon and do not start
    with ['#']; being a set, it holds each of them once.  A comment line
    and a line without a colon contribute nothing: the loop body leaves
    the set as it is on them, and they can be taken out of the file
    without changing the result. *)
Theorem extract_exact (w : world) (p : str) (f : file) :
  readable w p f →
  ∃ attributes w',
    extract_ldap_attributes p w = (Ok attributes, w') ∧
    (∀ a, a ∈ attributes ↔ ∃ line, line ∈ file_lines f ∧ contributes line a) ∧
    NoDup (elements attributes) ∧
    (∀ line, is_comment line ∨ COLON ∉ line →
       (∀ a, ¬ contributes line a) ∧
       (∀ collected, scan_line line collected = collected) ∧
       (∀ before after, file_lines f = before ++ line :: after →
          attributes = scan_lines (before ++ after) ∅)).
Proof.
  intros Hr. eexists _, _.
  split; [by apply extract_read, readable_outcome|]. split_and!.
  - intros a. rewrite elem_of_scan_lines. split; [|by right].
    by intros [Hin%not_elem_of_empty|].
  - apply NoDup_elements.
  - intros line Hskip. split_and!.
    + intros a (Hc & q & Hq%prefix_before_colon_has_colon & _).
      by destruct Hskip.
    + intros collected. by apply scan_line_skips.
    + intros before after ->. by apply scan_lines_skip.
Qed.

(** C5.  The handler of [extract_ldap_attributes] puts the text of the
    exception into the console's markup as it is.  When opening or
    reading the file fails and the console cannot print that message (the
    path in it holds a closing tag, say), the exception of the console
    leaves the handler: [extract_ldap_attributes] returns no set, and
    [main] ends with that exception before it reports anything. *)
Theorem extract_read_failure_unprinted (w : world) (p : str) (e e' : exn) :
  read_fails w p e →
  console_error (ErrorReadingFile e) = Some e' →
  extract_ldap_attributes p w =
    (Raised e', World (w_fs w) (w_create_error w) (w_console w)
                      (w_progress w ++ [(AnalyzingDump, true)])) ∧
  ∀ lower output,
    console_error Banner = None → (path_exists p w).1 = Ok true →
    main lower (Arguments_ p output) w =
      (Raised e', World (w_fs w) (w_create_error w)
                        (w_console w ++ [Banner])
                        (w_progress w ++ [(AnalyzingDump, true)])).
Proof.
  intros He%read_fails_outcome Hc. split.
  - by rewrite (extract_failed _ _ _ He), Hc.
  - intros lower output Hb Hp. rewrite main_found by done. cbv zeta.
    cbn [a_file]. unfold read_messages, print_error. rewrite He.
    cbn [print_all]. by rewrite Hc.
Qed.

(** X16.  When opening the file fails, or reading it fails at any point
    of the scan, and the console prints the error, then
    [extract_ldap_attributes] returns the empty set, whatever had been
    collected, and [main] goes on to report zero attributes. *)
Theorem extract_read_failure_reported (w : world) (p : str) (e : exn) :
  read_fails w p e →
  console_error (ErrorReadingFile e) = None →
  extract_ldap_attributes p w =
    (Ok ∅, World (w_fs w) (w_create_error w)
                 (w_console w ++ [ErrorReadingFile e])
                 (w_progress w ++ [(AnalyzingDump, true)])) ∧
  ∀ lower,
    (path_exists p w).1 = Ok true →
    all_print [Banner; AnalysisComplete; Statistics 0 0 p] = true →
    main lower (Arguments_ p None) w =
      (Ok (), World (w_fs w) (w_create_error w)
                    (w_console w ++ [Banner; ErrorReadingFile e;
                                     AnalysisComplete; Statistics 0 0 p])
                    (w_progress w ++ [(AnalyzingDump, true);
                                      (HuntingInteresting, true)])).
Proof.
  intros He%read_fails_outcome Hc. split.
  - by rewrite (extract_failed _ _ _ He), Hc.
  - intros lower Hp Hall.
    assert (announced lower p w =
            [Banner; ErrorReadingFile e; AnalysisComplete; Statistics 0 0 p])
      as Hann.
    { unfold announced, extracted, read_messages. rewrite He.
      unfold interesting_of. by rewrite elements_empty. }
    rewrite main_reported; cbn [a_file a_output].
    + unfold analysed. by rewrite Hann.
    + done.
    + rewrite Hann. cbn in Hall |- *. rewrite Hc.
      by destruct (console_error Banner).
Qed.

(** C7.  Extraction is deterministic: it leaves the file system as it is,
    a second run returns the set of the first, and so does a run in any
    world that has the same files. *)
Theorem extract_idempotent (p : str) (w : world) :
  (extract_ldap_attributes p (extract_ldap_attributes p w).2).1 =
    (extract_ldap_attributes p w).1 ∧
  w_fs (extract_ldap_attributes p w).2 = w_fs w ∧
  ∀ w', w_fs w' = w_fs w →
    (extract_ldap_attributes p w').1 = (extract_ldap_attributes p w).1.
Proof.
  rewrite !extract_run. simpl. split_and!; [done..|].
  intros w' Hfs. rewrite extract_run. simpl.
  unfold extracted, read_messages, read_outcome. by rewrite Hfs.
Qed.

(** X1.  No exception of the file operations leaves
    [extract_ldap_attributes]: it returns a set unless reading failed and
    the console refuses the error message, and it leaves the files as
    they are in either case. *)
Theorem extract_raises_console_errors_only (p : str) (w : world) :
  w_fs (extract_ldap_attributes p w).2 = w_fs w ∧
  w_create_error (extract_ldap_attributes p w).2 = w_create_error w ∧
  ((∃ attributes, (extract_ldap_attributes p w).1 = Ok attributes) ∨
   (∃ e e', read_fails w p e ∧
            console_error (ErrorReadingFile e) = Some e' ∧
            (extract_ldap_attributes p w).1 = Raised e')).
Proof.
  split; [by rewrite extract_run|]. split; [by rewrite extract_run|].
  destruct (read_outcome w p) as [e|lines] eqn:He.
  - rewrite (extract_failed _ _ _ He).
    destruct (console_error (ErrorReadingFile e)) as [e'|] eqn:Hc.
    + right. exists e, e'. by rewrite read_fails_outcome.
    + left. by eexists.
  - left. rewrite (extract_read _ _ _ He). by eexists.
Qed.

(** C6.  The comment test looks at the raw line.  A line whose ['#']
    comes after leading whitespace is no comment: when it holds a colon,
    the trimmed text before its first colon, which starts with ['#'], is
    added by the loop body and is in the set extracted from a file that
    holds the line. *)
Theorem indented_hash_is_no_comment (w : world) (p : str) (f : file)
    (ws rest : str) :
  readable w p f →
  ws ≠ [] → Forall (λ c, isspace c = true) ws → COLON ∈ rest →
  ws ++ HASH :: rest ∈ file_lines f →
  ¬ is_comment (ws ++ HASH :: rest) ∧
  ∃ prefix a tail,
    prefix_before_colon (ws ++ HASH :: rest) prefix ∧
    trimmed prefix a ∧ a = HASH :: tail ∧
    (∀ collected,
       scan_line (ws ++ HASH :: rest) collected = {[a]} ∪ collected) ∧
    ∃ attributes w',
      extract_ldap_attributes p w = (Ok attributes, w') ∧ a ∈ attributes.
Proof.
  intros Hr Hne Hws Hcolon Hline.
  assert (¬ is_comment (ws ++ HASH :: rest)) as Hnc.
  { intros [r Heq]. destruct ws as [|c ws]; [done|].
    injection Heq as -> _. by inversion Hws. }
  split; [done|].
  apply list_elem_of_split_l in Hcolon as (r1 & r2 & -> & Hr1).
  set (line := ws ++ HASH :: r1 ++ COLON :: r2) in *.
  assert (prefix_before_colon line (ws ++ HASH :: r1)) as Hpre.
  { exists r2. split; [by unfold line; rewrite <- app_assoc|].
    rewrite not_elem_of_app, not_elem_of_cons. split_and!; [|done|done].
    intros Hin. by apply (proj1 (Forall_forall _ _) Hws) in Hin. }
  assert (∃ tail, strip (ws ++ HASH :: r1) = HASH :: tail) as [tail Ha].
  { unfold strip. rewrite lstrip_spaces by done.
    rewrite lstrip_nonspace by done. by apply rstrip_head. }
  exists (ws ++ HASH :: r1), (strip (ws ++ HASH :: r1)), tail.
  split_and!; [done | by apply strip_trimmed | done | |].
  - intros collected. unfold scan_line.
    rewrite (proj2 (str_in_char _ _) (prefix_before_colon_has_colon _ _ Hpre)).
    destruct (startswith line [HASH]) eqn:Hs; [by apply startswith_hash in Hs|].
    simpl. rewrite (prefix_before_colon_item0 _ _ Hpre). by rewrite Ha.
  - eexists _, _. split; [by apply extract_read, readable_outcome|].
    apply elem_of_scan_lines. right. exists line. split; [done|].
    split; [done|]. exists (ws ++ HASH :: r1).
    split_and!; [done | apply strip_trimmed | by rewrite Ha].
Qed.

(** ** The keyword matcher *)

(** C2.  The list [find_interesting_attributes] returns holds attributes
    of the given set only, each qualifying attribute once however many
    keywords it matches, in lexicographic order of the names as they are;
    an attribute is in it exactly when its lowercase form has one of the
    thirteen fixed keywords as a substring. *)
Theorem find_interesting_correct (lower : str → str)
    (attributes : gset (list N)) (w : world) :
  ∃ interesting w',
    find_interesting_attributes lower attributes w = (Ok interesting, w') ∧
    (∀ a, a ∈ interesting → a ∈ attributes) ∧
    NoDup interesting ∧
    Sorted lex_le interesting ∧
    (∀ a, a ∈ interesting ↔
          a ∈ attributes ∧
          ∃ keyword, keyword ∈ keywords ∧ is_substring keyword (lower a)) ∧
    keywords = [lit "cascade"; lit "legacy"; lit "pwd"; lit "password";
                lit "secret"; lit "cred"; lit "hash"; lit "key";
                lit "backup"; lit "admin"; lit "service"; lit "old";
                lit "temp"].
Proof.
  forget_surroundings.
  eexists _, _. split; [apply find_interesting_run|].
  assert (∀ a, a ∈ interesting_of lower attributes ↔
               a ∈ attributes ∧
               ∃ keyword, keyword ∈ keywords ∧ is_substring keyword (lower a))
    as Hiff.
  { intros a. unfold interesting_of.
    rewrite sorted_elem_of, list_elem_of_filter, elem_of_elements.
    rewrite matches_keyword_spec. tauto. }
  split_and!; [| | | done | done].
  - intros a Ha. by apply Hiff in Ha as [? _].
  - unfold interesting_of. rewrite sorted_Permutation.
    apply NoDup_filter, NoDup_elements.
  - apply Sorted_lex_le, sorted_Sorted.
Qed.

(** X3.  A Python set has no fixed iteration order; in whatever order the
    attributes are visited, [find_interesting_attributes] returns the same
    list. *)
Theorem find_interesting_any_order (lower : str → str)
    (attributes : gset (list N)) (order : list str) (w : world) :
  order ≡ₚ elements attributes →
  (find_interesting_attributes lower attributes w).1 =
  Ok (sorted (filter (λ attr, matches_keyword lower attr = true) order)).
Proof.
  intros Horder. rewrite find_interesting_run. simpl.
  by rewrite (interesting_order_irrelevant lower attributes order).
Qed.

(** ** The reporter *)


(** X2.  A failure to open the output is not handled: when the path
    cannot be opened for writing, an exception leaves [main] unless the
    input was found missing, and no file has changed. *)
Theorem main_output_refused (lower : str → str) (file output : str) (w : world) :
  (path_exists file w).1 ≠ Ok false → output ≠ [] → ¬ can_write w output →
  ∃ e w',
    main lower (Arguments_ file (Some output)) w = (Raised e, w') ∧
    w_fs w' = w_fs w ∧
    ∀ path, SavedTo path ∈ w_console w' → SavedTo path ∈ w_console w.
Proof.
  intros Hfile Hout Hw.
  assert (truthy output = true) as Htruthy by (by destruct output).
  assert (∀ shown path,
    shown `prefix_of` announced lower file w →
    SavedTo path ∈ w_console w ++ shown → SavedTo path ∈ w_console w)
    as Hquiet.
  { intros shown path [k Hk] [Hin | Hin]%elem_of_app; [done|].
    exfalso. apply (announced_no_saved lower file w path).
    rewrite Hk. apply elem_of_app. by left. }
  destruct (console_error Banner) as [e|] eqn:Hb.
  { exists e, w. by rewrite (main_banner_refused _ _ _ e). }
  destruct ((path_exists file w).1) as [[|]|e] eqn:Hp; [|done|].
  2:{ exists e, (say w Banner). rewrite (main_stat_raises _ _ _ e) by done.
      split_and!; [done..|]. intros path. apply Hquiet.
      unfold announced. by eexists. }
  rewrite main_found by done. cbv zeta. cbn [a_file a_output].
  destruct (print_error (read_messages w file)) as [e|].
  { eexists _, _. split_and!; [done..|]. intros path. apply Hquiet.
    unfold announced. by eexists. }
  destruct (print_error (report _ _ _)) as [e|].
  { eexists _, _. split_and!; [done..|]. intros path. cbn [w_console].
    apply Hquiet. unfold announced.
    apply prefix_cons, prefix_app, printed_prefix. }
  destruct (save_refused output (extracted w file)
              (interesting_of lower (extracted w file))
              (analysed lower file w) Hw) as [e He].
  exists e, (analysed lower file w).
  rewrite Htruthy, run_bind, He. split_and!; [done..|].
  intros path. by apply Hquiet.
Qed.

(** C9.  [save_raw_output] never looks at its [interesting] argument: for
    the same path and set, any two lists give the same run, and when the
    file can be written its content is the encoding of the sorted set,
    whatever the list. *)
Theorem save_ignores_interesting (file_path : str) (attributes : gset (list N))
    (interesting interesting' : list str) (w : world) :
  save_raw_output file_path attributes interesting w =
  save_raw_output file_path attributes interesting' w ∧
  ∀ bs, can_write w file_path →
    Utf8.encode (one_per_line (sorted (elements attributes))) = Some bs →
    ∃ f, w_fs (save_raw_output file_path attributes interesting w).2
           !! resolve file_path = Some (Regular f) ∧
         w_fs (save_raw_output file_path attributes interesting' w).2
           !! resolve file_path = Some (Regular f) ∧
         f_data f = bs.
Proof.
  split; [reflexivity|]. intros bs Hw Hbs.
  rewrite !(save_run _ _ _ _ bs) by done. unfold store. simpl.
  rewrite lookup_insert_eq. eexists. split_and!; [done | done |].
  by destruct (w_fs w !! resolve file_path) as [[|f]|].
Qed.

(** ** [main] *)

(** C4.  [main] puts the input path into the console's markup as it is.
    When [Path(args.file).exists()] answers [False] and the console
    cannot print the not-found message (the path holds a closing tag,
    say), [main] does not return: it ends with the console's exception,
    having printed the banner only.  It still starts no extraction and
    writes no file. *)
Theorem main_missing_input_unprinted (lower : str → str) (args : arguments)
    (w : world) (e : exn) :
  console_error Banner = None →
  (path_exists (a_file args) w).1 = Ok false →
  console_error (FileNotFound (a_file args)) = Some e →
  main lower args w =
    (Raised e, World (w_fs w) (w_create_error w) (w_console w ++ [Banner])
                     (w_progress w)).
Proof. intros Hb Hp Hc. by rewrite main_not_found, Hc. Qed.

(** X17.  When [Path(args.file).exists()] answers [False] and the
    console prints the banner and the not-found message, [main] prints
    the two and returns normally; it starts no extraction (the progress
    display gets no task) and writes no file, whatever [args.output]
    is. *)
Theorem main_missing_input_reported (lower : str → str) (args : arguments)
    (w : world) :
  (path_exists (a_file args) w).1 = Ok false →
  all_print [Banner; FileNotFound (a_file args)] = true →
  main lower args w =
    (Ok (), World (w_fs w) (w_create_error w)
                  (w_console w ++ [Banner; FileNotFound (a_file args)])
                  (w_progress w)).
Proof.
  intros Hp Hall. cbn in Hall.
  destruct (console_error Banner) eqn:Hb; [done|].
  destruct (console_error (FileNotFound _)) eqn:Hc; [done|].
  by rewrite main_not_found, Hc.
Qed.

(** C10.  An empty [args.output] is the same as none: the two runs are
    equal, however they end, no file is written and no save confirmation
    is printed. *)
Theorem empty_output_is_no_output (lower : str → str) (file : str) (w : world) :
  main lower (Arguments_ file (Some [])) w = main lower (Arguments_ file None) w ∧
  ∃ shown,
    w_fs (main lower (Arguments_ file (Some [])) w).2 = w_fs w ∧
    w_console (main lower (Arguments_ file (Some [])) w).2 =
      w_console w ++ shown ∧
    ∀ path, SavedTo path ∉ shown.
Proof.
  split; [reflexivity|].
  destruct (main_cases lower (Arguments_ file (Some [])) w)
    as [(r & shown & tasks & -> & Hshown & _)
       | (output & bs & r & shown & [= <-] & Hne & _)]; [|done].
  exists shown. split_and!; [done..|].
  intros path Hin. destruct Hshown as [[k Hk] | [k Hk]].
  - assert (SavedTo path ∈ [Banner; FileNotFound file]) as Hin'.
    { cbn [a_file] in Hk. rewrite Hk. apply elem_of_app. by left. }
    by repeat apply elem_of_cons in Hin' as [[=] | Hin'];
      apply elem_of_nil in Hin'.
  - apply (announced_no_saved lower file w path).
    cbn [a_file] in Hk. rewrite Hk. apply elem_of_app. by left.
Qed.

(** ** The worked example *)

(** C8.  For a dump whose lines are [cn: John], [userPassword: xyz],
    [# comment], [mail] and [legacyFlag: true], the extracted set is
    {cn, userPassword, legacyFlag} and the interesting list is
    [legacyFlag; userPassword], in that order.  Only the behaviour of
    [str.lower()] on ASCII strings is used. *)
Theorem example_dump (lower : str → str) (w : world) (p : str) (f : file) :
  (∀ s, Forall (λ c, c < 128) s → lower s = ascii_lower s) →
  readable w p f →
  map chomp (file_lines f) = sample_lines →
  ∃ w1 w2,
    extract_ldap_attributes p w =
      (Ok {[ lit "cn"; lit "userPassword"; lit "legacyFlag" ]}, w1) ∧
    find_interesting_attributes lower
      {[ lit "cn"; lit "userPassword"; lit "legacyFlag" ]} w1 =
      (Ok [lit "legacyFlag"; lit "userPassword"], w2).
Proof.
  intros Hlower Hr Hlines.
  eexists _, _. split.
  - rewrite (extract_read _ _ _ (readable_outcome _ _ _ Hr)). f_equal. f_equal.
    rewrite scan_lines_chomp, Hlines. by vm_compute.
  - rewrite find_interesting_run. f_equal. f_equal.
    rewrite (interesting_of_ext lower ascii_lower); [by vm_compute|].
    intros a. rewrite !elem_of_union, !elem_of_singleton.
    intros [[-> | ->] | ->]; apply Hlower;
      repeat (constructor; [reflexivity|]); constructor.
Qed.

(** ** What the extractor keeps and what it ignores *)

(** X4.  No extracted name is empty, holds a colon, a line feed or a
    carriage return, or starts or ends with whitespace. *)
Theorem extracted_names_well_formed (p : str) (w : world)
    (attributes : gset (list N)) (a : str) :
  (extract_ldap_attributes p w).1 = Ok attributes → a ∈ attributes →
  a ≠ [] ∧ (COLON ∉ a) ∧ (LF ∉ a) ∧ (CR ∉ a) ∧ no_space_at_ends a.
Proof.
  rewrite extract_run. cbn [fst].
  destruct (print_error _); [done|]. intros [= <-] Ha.
  destruct (extracted_well_formed _ _ _ Ha) as (? & ? & ?).
  destruct (extracted_chars _ _ _ Ha) as (_ & ? & ?). done.
Qed.

(** X5.  Two dumps that hold the same lines, in whatever order and however
    often, give the same set. *)
Theorem extract_ignores_line_order (w w' : world) (p q : str) (f g : file) :
  readable w p f → readable w' q g →
  (list_to_set (file_lines f) : gset (list N)) = list_to_set (file_lines g) →
  (extract_ldap_attributes p w).1 = (extract_ldap_attributes q w').1.
Proof.
  intros Hf Hg Hlines.
  rewrite (extract_read _ _ _ (readable_outcome _ _ _ Hf)).
  rewrite (extract_read _ _ _ (readable_outcome _ _ _ Hg)).
  simpl. f_equal. by apply scan_lines_same_lines.
Qed.

(** X6.  The text after the first colon of a line is never looked at: two
    dumps whose lines agree up to their first colon give the same set. *)
Theorem extract_ignores_values (w w' : world) (p q : str) (f g : file) :
  readable w p f → readable w' q g →
  Forall2 (λ l1 l2, l1 = l2 ∨ same_key l1 l2) (file_lines f) (file_lines g) →
  (extract_ldap_attributes p w).1 = (extract_ldap_attributes q w').1.
Proof.
  intros Hf Hg Hlines.
  rewrite (extract_read _ _ _ (readable_outcome _ _ _ Hf)).
  rewrite (extract_read _ _ _ (readable_outcome _ _ _ Hg)).
  simpl. f_equal. by apply scan_lines_same_keys.
Qed.

(** X7.  Line ends do not matter: two dumps with the same lines, their
    terminators left aside, give the same set, so ["\r\n"] for ["\n"] or
    a missing last newline changes nothing. *)
Theorem extract_ignores_line_ends (w w' : world) (p q : str) (f g : file) :
  readable w p f → readable w' q g →
  map chomp (file_lines f) = map chomp (file_lines g) →
  (extract_ldap_attributes p w).1 = (extract_ldap_attributes q w').1.
Proof.
  intros Hf Hg Hlines.
  rewrite (extract_read _ _ _ (readable_outcome _ _ _ Hf)).
  rewrite (extract_read _ _ _ (readable_outcome _ _ _ Hg)).
  simpl. f_equal. by rewrite scan_lines_chomp, Hlines, <- scan_lines_chomp.
Qed.

(** ** What [save_raw_output] and [main] do to the files *)

(** X8.  [main] changes no file but the one that [args.output] names,
    however it ends: every other place of the file system, the input
    included when it is another file, holds afterwards what it held
    before. *)
Theorem main_touches_output_only (lower : str → str) (args : arguments)
    (w : world) (key : str) :
  (∀ output, a_output args = Some output → resolve output ≠ key) →
  w_fs (main lower args w).2 !! key = w_fs w !! key.
Proof.
  intros Hkey.
  destruct (main_cases lower args w)
    as [(r & shown & tasks & -> & _)
       | (output & bs & r & shown & Hout & _ & _ & _ & _ & _ & -> & _)];
    [done|].
  unfold say_all, store. simpl. rewrite lookup_insert_ne; [done|].
  by apply Hkey.
Qed.

(** X9.  When the input exists but cannot be read and an output path is
    given, [main] still writes the output: if the console prints its
    messages, the file that the output path names is created or emptied,
    and the run is reported as saved. *)
Theorem read_failure_empties_output (lower : str → str) (file output : str)
    (w : world) (e : exn) :
  read_fails w file e → (path_exists file w).1 = Ok true →
  output ≠ [] → can_write w output →
  all_print [Banner; ErrorReadingFile e; AnalysisComplete;
             Statistics 0 0 file; SavedTo output] = true →
  ∃ w' f',
    main lower (Arguments_ file (Some output)) w = (Ok (), w') ∧
    w_fs w' !! resolve output = Some (Regular f') ∧ f_data f' = [] ∧
    w_console w' =
      w_console w ++ [Banner; ErrorReadingFile e; AnalysisComplete;
                      Statistics 0 0 file; SavedTo output].
Proof.
  intros He%read_fails_outcome Hfile Hout Hw Hall.
  assert (truthy output = true) as Htruthy by (by destruct output).
  assert (extracted w file = ∅) as Hempty.
  { unfold extracted. by rewrite He. }
  assert (announced lower file w =
          [Banner; ErrorReadingFile e; AnalysisComplete; Statistics 0 0 file])
    as Hann.
  { unfold announced, read_messages. rewrite Hempty, He.
    unfold interesting_of. by rewrite elements_empty. }
  change [Banner; ErrorReadingFile e; AnalysisComplete; Statistics 0 0 file;
          SavedTo output]
    with ([Banner; ErrorReadingFile e; AnalysisComplete; Statistics 0 0 file]
            ++ [SavedTo output]) in Hall.
  rewrite all_print_app, <- Hann in Hall.
  apply andb_true_iff in Hall as [Hall Hsaved].
  assert (console_error (SavedTo output) = None) as Hc.
  { apply (all_print_elem _ _ Hsaved). by left. }
  eexists _, _. split_and!.
  - rewrite main_reported by done. cbn [a_output a_file].
    rewrite Htruthy, Hempty.
    rewrite (save_and_confirm _ _ _ []), Hc; [done | done |].
    by rewrite elements_empty.
  - unfold say, store. simpl. by rewrite lookup_insert_eq.
  - by destruct (w_fs w !! resolve output) as [[|f]|].
  - unfold say, store, analysed. simpl. rewrite Hann.
    by rewrite <- app_assoc.
Qed.

(** X10.  [save_raw_output] on a set with a name that has no UTF-8 form
    (a lone surrogate) raises [UnicodeEncodeError] at that name; the file
    then holds the names sorted before it and nothing else. *)
Theorem save_stops_at_unencodable (file_path : str)
    (attributes : gset (list N)) (interesting : list str) (w : world)
    (before after : list str) (a : str) (bs : list byte) :
  can_write w file_path →
  sorted (elements attributes) = before ++ a :: after →
  Utf8.encode (one_per_line before) = Some bs →
  Utf8.encode a = None →
  save_raw_output file_path attributes interesting w =
    (Raised UnicodeEncodeError, store w file_path bs).
Proof.
  unfold can_write, save_raw_output, store, open_write.
  intros Hw -> Hbs Ha.
  assert (Utf8.encode (a ++ [LF]) = None) as Ha'.
  { rewrite encode_app. by rewrite Ha. }
  rewrite run_bind.
  destruct (w_fs w !! resolve file_path) as [[|f]|] eqn:Hp; [done| |].
  - rewrite Hw. unfold set_file at 1.
    erewrite write_lines_stop; [| by simpl; rewrite lookup_insert_eq | done..].
    simpl. by rewrite insert_insert_eq.
  - rewrite Hw. unfold set_file at 1.
    erewrite write_lines_stop; [| by simpl; rewrite lookup_insert_eq | done..].
    simpl. by rewrite insert_insert_eq.
Qed.

(** X11.  The file [main] writes holds no attribute of its own: no name
    holds a colon, so extracting from it never gives a set other than the
    empty one, and gives the empty set when the file was newly
    created. *)
Theorem output_holds_no_attribute (lower : str → str) (file output : str)
    (w : world) :
  (path_exists file w).1 = Ok true → output ≠ [] → can_write w output →
  all_print (announced lower file w) = true →
  let w' := (main lower (Arguments_ file (Some output)) w).2 in
  (∀ attributes,
     (extract_ldap_attributes output w').1 = Ok attributes → attributes = ∅) ∧
  (w_fs w !! resolve output = None →
   (extract_ldap_attributes output w').1 = Ok ∅).
Proof.
  intros Hfile Hout Hw Hall w'.
  assert (truthy output = true) as Htruthy by (by destruct output).
  destruct (extracted_encodable w file) as [bs Hbs].
  assert (w_fs w' = w_fs (store w output bs)) as Hfs.
  { unfold w'. rewrite main_reported by done. cbn [a_output a_file].
    rewrite Htruthy, (save_and_confirm _ _ _ bs) by done.
    by destruct (console_error (SavedTo output)). }
  set (f' := match w_fs w !! resolve output with
             | Some (Regular f) => File (f_readable f) true bs (f_fault f)
             | _ => File true true bs None
             end).
  assert (w_fs w' !! resolve output = Some (Regular f')) as Hlook.
  { rewrite Hfs. unfold store. simpl. by rewrite lookup_insert_eq. }
  assert (f_data f' = bs) as Hdata.
  { unfold f'. by destruct (w_fs w !! resolve output) as [[|f]|]. }
  assert (scan_lines (file_lines f') ∅ = ∅) as Hscan.
  { unfold file_lines. rewrite Hdata, (written_lines _ _ _ Hbs).
    apply scan_lines_no_colon, Forall_forall.
    intros line (a & -> & Ha%sorted_elem_of%elem_of_elements)%list_elem_of_fmap.
    apply extracted_well_formed in Ha as (_ & Hc & _).
    rewrite not_elem_of_app. split; [done|].
    by intros ?%list_elem_of_singleton. }
  assert (extracted w' output = ∅) as Hext.
  { unfold extracted, read_outcome. rewrite Hlook.
    destruct (f_readable f'); [|done].
    by destruct (f_fault f') as [[n e]|]. }
  split.
  - intros attributes. rewrite extract_run. cbn [fst].
    destruct (print_error _); [done|]. unfold outcome. rewrite Hext. congruence.
  - intros Hnew. rewrite (extract_read _ _ (file_lines f')); [by rewrite Hscan|].
    unfold read_outcome. rewrite Hlook. unfold f'. by rewrite Hnew.
Qed.

(** ** What [main] reports *)

(** X12.  The statistics agree with the output: when the report prints
    and the output is written, the total that [main] prints is the number
    of lines of the file it writes, and the number of interesting
    attributes it prints is never larger. *)
Theorem statistics_agree_with_output (lower : str → str) (file output : str)
    (w : world) :
  (path_exists file w).1 = Ok true → output ≠ [] → can_write w output →
  all_print (announced lower file w) = true →
  ∃ r w' f' total interesting shown,
    main lower (Arguments_ file (Some output)) w = (r, w') ∧
    w_console w' = w_console w ++ shown ∧
    Statistics total interesting file ∈ shown ∧
    (∀ n m path, Statistics n m path ∈ shown →
                 n = total ∧ m = interesting ∧ path = file) ∧
    (interesting ≤ total)%nat ∧
    w_fs w' !! resolve output = Some (Regular f') ∧
    length (readlines (Utf8.decode_ignore (f_data f'))) = total.
Proof.
  intros Hfile Hout Hw Hall.
  assert (truthy output = true) as Htruthy by (by destruct output).
  destruct (extracted_encodable w file) as [bs Hbs].
  set (attributes := extracted w file) in *.
  set (interesting := interesting_of lower attributes).
  assert (∃ r w' tail,
    main lower (Arguments_ file (Some output)) w = (r, w') ∧
    w_fs w' = w_fs (store w output bs) ∧
    w_console w' = w_console w ++ announced lower file w ++ tail ∧
    tail `prefix_of` [SavedTo output]) as (r & w' & tail & Hmain & Hfs & Hcon & Htail).
  { rewrite main_reported by done. cbn [a_output a_file].
    rewrite Htruthy, (save_and_confirm _ _ _ bs) by done.
    destruct (console_error (SavedTo output)).
    - eexists _, _, []. split_and!; [done | done | | apply prefix_nil].
      unfold store, analysed. simpl. by rewrite app_nil_r.
    - eexists _, _, [SavedTo output]. split_and!; [done | done | | done].
      unfold say, store, analysed. simpl. by rewrite <- app_assoc. }
  assert (∀ m, m ∈ tail → m = SavedTo output) as Htail'.
  { intros m Hm. destruct Htail as [k Hk].
    assert (m ∈ [SavedTo output]) as Hin
      by (rewrite Hk; apply elem_of_app; by left).
    by apply list_elem_of_singleton in Hin. }
  exists r, w'.
  eexists _, (size attributes), (length interesting), _.
  split_and!.
  - done.
  - exact Hcon.
  - apply elem_of_app. left. unfold announced. right.
    apply elem_of_app. right. apply elem_of_report. right. by left.
  - intros n m path [Hin | [=]%Htail']%elem_of_app.
    unfold announced in Hin. apply elem_of_cons in Hin as [[=] | Hin].
    apply elem_of_app in Hin as [[e [=]]%elem_of_read_messages | Hin].
    apply elem_of_report in Hin
      as [[=] | [[= -> -> ->] | (_ & [[=] | (a & _ & [=])])]].
    done.
  - apply interesting_count.
  - rewrite Hfs. unfold store. cbn [w_fs]. by rewrite lookup_insert_eq.
  - replace (f_data _) with bs
      by (by destruct (w_fs w !! resolve output) as [[|f]|]).
    rewrite (written_lines _ _ _ Hbs), length_map.
    by rewrite (Permutation_length (sorted_Permutation _)).
Qed.

(** X13.  When the input exists and the console prints the report, [main]
    lists as interesting exactly the extracted attributes whose lowercase
    form holds a keyword, and it prints the heading of that list exactly
    when the list is not empty; this is so whether or not the output can
    be written afterwards. *)
Theorem main_flags_matching_names (lower : str → str) (args : arguments)
    (w : world) :
  (path_exists (a_file args) w).1 = Ok true →
  all_print (announced lower (a_file args) w) = true →
  ∃ attributes shown,
    (extract_ldap_attributes (a_file args) w).1 = Ok attributes ∧
    w_console (main lower args w).2 = w_console w ++ shown ∧
    (∀ a, InterestingItem a ∈ shown ↔
          a ∈ attributes ∧
          ∃ keyword, keyword ∈ keywords ∧ is_substring keyword (lower a)) ∧
    (InterestingHeader ∈ shown ↔ ∃ a, InterestingItem a ∈ shown).
Proof.
  intros Hfile Hall.
  set (attributes := extracted w (a_file args)).
  set (interesting := interesting_of lower attributes).
  set (head := announced lower (a_file args) w).
  assert (∀ a, InterestingItem a ∈ head ↔ a ∈ interesting) as Hitem.
  { intros a. unfold head, announced.
    rewrite elem_of_cons, elem_of_app, elem_of_report. split.
    - intros [[=] | [[e [=]]%elem_of_read_messages
                    | [[=] | [[=] | (_ & [[=] | (b & ? & [= ->])])]]]]. done.
    - intros Ha. do 4 right. split; [by eapply elem_of_not_nil|].
      right. eauto. }
  assert (InterestingHeader ∈ head ↔ interesting ≠ []) as Hhead.
  { unfold head, announced.
    rewrite elem_of_cons, elem_of_app, elem_of_report. split.
    - intros [[=] | [[e [=]]%elem_of_read_messages
                    | [[=] | [[=] | (? & _)]]]]. done.
    - intros Hne. do 4 right. split; [done | by left]. }
  assert (print_error (read_messages w (a_file args)) = None) as Hread.
  { apply all_print_error. unfold announced in Hall.
    change (Banner :: ?l) with ([Banner] ++ l) in Hall.
    rewrite !all_print_app in Hall.
    by apply andb_true_iff in Hall as [_ [? _]%andb_true_iff]. }
  assert (∃ tail, w_console (main lower args w).2 = w_console w ++ head ++ tail
                  ∧ ∀ m, m ∈ tail → ∃ path, m = SavedTo path)
    as (tail & Hconsole & Htail).
  { rewrite main_reported by done. cbv zeta.
    assert (w_console (analysed lower (a_file args) w) = w_console w ++ head ++ [])
      as Hdone by (by rewrite app_nil_r).
    destruct (a_output args) as [[|c output]|];
      [ exists []; split; [done | by intros m ?%elem_of_nil]
      | | exists []; split; [done | by intros m ?%elem_of_nil] ].
    cbn [truthy].
    destruct (can_write_dec (analysed lower (a_file args) w) (c :: output))
      as [Hw | Hw].
    - destruct (extracted_encodable w (a_file args)) as [bs Hbs].
      rewrite (save_and_confirm _ _ _ bs) by done.
      destruct (console_error (SavedTo (c :: output))).
      + exists []. split; [done | by intros m ?%elem_of_nil].
      + exists [SavedTo (c :: output)]. split.
        * unfold say, store, analysed. cbn [snd w_console].
          by rewrite <- app_assoc.
        * intros m ->%list_elem_of_singleton. eauto.
    - destruct (save_refused (c :: output) (extracted w (a_file args))
                  (interesting_of lower (extracted w (a_file args)))
                  (analysed lower (a_file args) w) Hw) as [e He].
      rewrite run_bind, He. exists []. split; [done | by intros m ?%elem_of_nil]. }
  exists attributes, (head ++ tail). split_and!.
  - rewrite extract_run. cbn [fst]. by rewrite Hread.
  - done.
  - intros a. rewrite elem_of_app, Hitem, <- elem_of_interesting_of.
    split; [intros [? | [path [=]]%Htail]; done | by left].
  - rewrite elem_of_app, Hhead. split.
    + intros [Hne | [path [=]]%Htail].
      destruct (interesting_of lower attributes) as [|a l] eqn:Hl; [done|].
      exists a. apply elem_of_app. left. apply Hitem. by left.
    + intros [a [Ha%Hitem | [path [=]]%Htail]%elem_of_app]. left.
      by eapply elem_of_not_nil.
Qed.

(** X14.  Running [main] a second time with the same arguments, the
    output being another file than the input, ends as the first run ended
    and writes what the first run wrote: the files are left as they
    were. *)
Theorem main_again_changes_nothing (lower : str → str) (file output : str)
    (w : world) :
  (path_exists file w).1 = Ok true → output ≠ [] → can_write w output →
  all_print (announced lower file w) = true →
  resolve file ≠ resolve output →
  let args := Arguments_ file (Some output) in
  let w1 := (main lower args w).2 in
  (main lower args w1).1 = (main lower args w).1 ∧
  w_fs (main lower args w1).2 = w_fs w1.
Proof.
  intros Hfile Hout Hw Hall Hne args w1.
  assert (truthy output = true) as Htruthy by (by destruct output).
  destruct (extracted_encodable w file) as [bs Hbs].
  assert (∀ w0, (path_exists file w0).1 = Ok true → can_write w0 output →
                all_print (announced lower file w0) = true →
                extracted w0 file = extracted w file →
                (main lower args w0).1 = outcome () (console_error (SavedTo output)) ∧
                w_fs (main lower args w0).2 = w_fs (store w0 output bs))
    as Hrun.
  { intros w0 Hfile0 Hw0 Hall0 Hext0. unfold args.
    rewrite main_reported by done. cbn [a_output a_file].
    rewrite Htruthy, (save_and_confirm _ _ _ bs) by (by rewrite ?Hext0).
    by destruct (console_error (SavedTo output)). }
  destruct (Hrun w Hfile Hw Hall eq_refl) as [Hr1 Hfs1]. fold w1 in Hfs1.
  set (f1 := match w_fs w !! resolve output with
             | Some (Regular f) => File (f_readable f) true bs (f_fault f)
             | _ => File true true bs None
             end).
  assert (w_fs w1 = <[resolve output := Regular f1]> (w_fs w)) as Hfs1'.
  { by rewrite Hfs1. }
  assert (read_outcome w1 file = read_outcome w file) as Hread.
  { unfold read_outcome. by rewrite Hfs1', lookup_insert_ne. }
  assert (extracted w1 file = extracted w file) as Hsame.
  { unfold extracted. by rewrite Hread. }
  assert (announced lower file w1 = announced lower file w) as Hann.
  { unfold announced, read_messages. by rewrite Hsame, Hread. }
  assert (can_write w1 output) as Hw1.
  { unfold can_write. rewrite Hfs1', lookup_insert_eq.
    unfold f1. by destruct (w_fs w !! resolve output) as [[|f]|]. }
  assert ((path_exists file w1).1 = Ok true) as Hfile1.
  { revert Hfile. unfold path_exists.
    destruct (pathlib_stat file) as [e| |key]; [done | done |]. cbn [fst].
    intros [= Hsome%bool_decide_eq_true]. f_equal. apply bool_decide_eq_true.
    rewrite Hfs1'. destruct (decide (key = resolve output)) as [-> | Hk].
    - by rewrite lookup_insert_eq.
    - by rewrite lookup_insert_ne. }
  destruct (Hrun w1 Hfile1 Hw1) as [Hr2 Hfs2]; [by rewrite Hann | done |].
  split; [by rewrite Hr1, Hr2|].
  rewrite Hfs2. unfold store. cbn [w_fs].
  rewrite Hfs1', lookup_insert_eq, insert_insert_eq. f_equal. f_equal.
  unfold f1. by destruct (w_fs w !! resolve output) as [[|f]|].
Qed.

(** X15.  [main] adds at most the two tasks of its phases to the progress
    display, in this order, and none unless the input exists; on each
    task it adds, [update(task, completed=True)] is called before [main]
    ends, also when reading fails, when the console refuses a message or
    when the output cannot be written. *)
Theorem main_updates_its_tasks (lower : str → str) (args : arguments)
    (w : world) :
  ∃ added,
    w_progress (main lower args w).2 = w_progress w ++ added ∧
    Forall (λ task, task.2 = true) added ∧
    added `prefix_of` [(AnalyzingDump, true); (HuntingInteresting, true)] ∧
    ((path_exists (a_file args) w).1 ≠ Ok true → added = []).
Proof.
  assert (∀ tasks : list (task_description * bool),
    tasks `prefix_of` [(AnalyzingDump, true); (HuntingInteresting, true)] →
    Forall (λ task, task.2 = true) tasks) as Hflags.
  { intros tasks [k Hk].
    assert (Forall (λ task : task_description * bool, task.2 = true)
              (tasks ++ k)) as H by (rewrite <- Hk; by repeat constructor).
    by apply Forall_app in H as [? _]. }
  destruct (console_error Banner) as [e|] eqn:Hb.
  { exists []. rewrite (main_banner_refused _ _ _ e) by done.
    rewrite app_nil_r. split_and!; [done | done | apply prefix_nil | done]. }
  destruct ((path_exists (a_file args) w).1) as [[|]|e] eqn:Hp.
  - destruct (main_cases lower args w)
      as [(r & shown & tasks & -> & _ & Htasks)
         | (output & bs & r & shown & _ & _ & _ & _ & _ & _ & -> & _)].
    + exists tasks. split_and!; [done | by apply Hflags | done | done].
    + eexists. split_and!; [done | by repeat constructor | done | done].
  - exists []. rewrite main_not_found by done. rewrite app_nil_r.
    split_and!; [ | done | apply prefix_nil | done].
    destruct (console_error (FileNotFound (a_file args))); reflexivity.
  - exists []. rewrite (main_stat_raises _ _ _ e) by done. rewrite app_nil_r.
    split_and!; [done | done | apply prefix_nil | done].
Qed.

(** X18.  Whatever [main] lists as interesting, however the run ends, is
    an extracted attribute whose lowercase form holds a keyword. *)
Theorem main_flags_only_matching_names (lower : str → str) (args : arguments)
    (w : world) (shown : list message) (a : str) :
  w_console (main lower args w).2 = w_console w ++ shown →
  InterestingItem a ∈ shown →
  ∃ attributes,
    (extract_ldap_attributes (a_file args) w).1 = Ok attributes ∧
    a ∈ attributes ∧
    ∃ keyword, keyword ∈ keywords ∧ is_substring keyword (lower a).
Proof.
  intros Hshown Hin.
  assert (InterestingItem a ∈ announced lower (a_file args) w) as Hann.
  { destruct (main_cases lower args w)
      as [(r & shown' & tasks & Hmain & Hpre & _)
         | (output & bs & r & shown' & _ & _ & _ & _ & _ & _ & Hmain & Hpre & _)];
      rewrite Hmain in Hshown; cbn [snd w_console] in Hshown.
    - apply app_inv_head in Hshown as <-.
      destruct Hpre as [[k Hk] | [k Hk]].
      + assert (InterestingItem a ∈ [Banner; FileNotFound (a_file args)])
          as Hin' by (rewrite Hk; apply elem_of_app; by left).
        by repeat apply elem_of_cons in Hin' as [[=] | Hin'];
          apply elem_of_nil in Hin'.
      + rewrite Hk. apply elem_of_app. by left.
    - unfold say_all, store, analysed in Hshown. cbn [w_console] in Hshown.
      rewrite <- app_assoc in Hshown. apply app_inv_head in Hshown as <-.
      apply elem_of_app in Hin as [Hin | Hin]; [done|].
      destruct Hpre as [k Hk].
      assert (InterestingItem a ∈ [SavedTo output])
        as Hin' by (rewrite Hk; apply elem_of_app; by left).
      by apply list_elem_of_singleton in Hin'. }
  unfold announced in Hann.
  apply elem_of_cons in Hann as [[=] | Hann].
  apply elem_of_app in Hann as [[e [=]]%elem_of_read_messages | Hann].
  apply elem_of_report in Hann
    as [[=] | [[=] | (_ & [[=] | (b & Hb & [= ->])])]].
  apply elem_of_interesting_of in Hb as [Hb Hkey].
  exists (extracted w (a_file args)). split_and!; [|done..].
  rewrite extract_run. cbn [fst].
  destruct (read_outcome w (a_file args)) as [e|lines] eqn:He.
  - exfalso. unfold extracted in Hb. rewrite He in Hb.
    by apply not_elem_of_empty in Hb.
  - unfold read_messages. by rewrite He.
Qed.

End Environment.

(** ** The sample world, checked *)

Example sample_file_lines :
  file_lines sample_file = map (λ l, l ++ [LF]) sample_lines.
Proof. vm_compute. reflexivity. Qed.

Example sample_readable :
  readable sample_resolve sample_world (lit "dump.ldif") sample_file.
Proof. by vm_compute. Qed.

Lemma extract_exact_witness :
  ∃ attributes w',
    extract_ldap_attributes sample_console sample_resolve (lit "dump.ldif")
      sample_world = (Ok attributes, w') ∧
    (∀ a, a ∈ attributes ↔
          ∃ line, line ∈ file_lines sample_file ∧ contributes line a) ∧
    NoDup (elements attributes) ∧
    (∀ line, is_comment line ∨ COLON ∉ line →
       (∀ a, ¬ contributes line a) ∧
       (∀ collected, scan_line line collected = collected) ∧
       (∀ before after, file_lines sample_file = before ++ line :: after →
          attributes = scan_lines (before ++ after) ∅)).
Proof.
  apply (extract_exact sample_console sample_resolve sample_world
           (lit "dump.ldif") sample_file).
  by vm_compute.
Defined.

(** A directory whose name holds a closing tag: the error message cannot
    be printed, and [MarkupError] leaves the extractor and [main]. *)
Lemma extract_read_failure_unprinted_witness :
  extract_ldap_attributes sample_console sample_resolve (lit "dumps[/old]")
    sample_world =
    (Raised MarkupError,
     World (w_fs sample_world) (w_create_error sample_world)
           (w_console sample_world)
           (w_progress sample_world ++ [(AnalyzingDump, true)])) ∧
  main sample_console sample_resolve sample_stat ascii_lower
       (Arguments_ (lit "dumps[/old]") (Some (lit "out.txt"))) sample_world =
    (Raised MarkupError,
     World (w_fs sample_world) (w_create_error sample_world)
           (w_console sample_world ++ [Banner])
           (w_progress sample_world ++ [(AnalyzingDump, true)])).
Proof.
  destruct (extract_read_failure_unprinted sample_console sample_resolve
              sample_stat sample_world (lit "dumps[/old]")
              (IsADirectoryError (lit "dumps[/old]")) MarkupError)
    as [Hextract Hmain].
  - apply fails_directory. vm_compute. reflexivity.
  - reflexivity.
  - split; [exact Hextract|]. apply Hmain; reflexivity.
Defined.

(** The same for a file that does not exist, given to the extractor
    directly. *)
Example missing_tagged_name_raises :
  (extract_ldap_attributes sample_console sample_resolve (lit "x[/y].ldif")
     sample_world).1 = Raised MarkupError.
Proof. vm_compute. reflexivity. Qed.

Lemma extract_read_failure_reported_witness :
  extract_ldap_attributes sample_console sample_resolve (lit "bad.ldif")
    sample_world =
    (Ok ∅, World (w_fs sample_world) (w_create_error sample_world)
                 (w_console sample_world ++ [ErrorReadingFile (OSError 5)])
                 (w_progress sample_world ++ [(AnalyzingDump, true)])) ∧
  main sample_console sample_resolve sample_stat ascii_lower
       (Arguments_ (lit "bad.ldif") None) sample_world =
    (Ok (), World (w_fs sample_world) (w_create_error sample_world)
                  (w_console sample_world ++
                     [Banner; ErrorReadingFile (OSError 5);
                      AnalysisComplete; Statistics 0 0 (lit "bad.ldif")])
                  (w_progress sample_world ++
                     [(AnalyzingDump, true); (HuntingInteresting, true)])).
Proof.
  destruct (extract_read_failure_reported sample_console sample_resolve
              sample_stat sample_world (lit "bad.ldif") (OSError 5))
    as [Hextract Hmain].
  - by apply (fails_during_scan _ _ _ faulty_file 1%nat); vm_compute.
  - reflexivity.
  - split; [exact Hextract|]. apply Hmain; reflexivity.
Defined.

(** The line read before the fault held an attribute; it is not in the
    result. *)
Example collected_then_discarded :
  scan_lines (take 1 (file_lines faulty_file)) ∅ = {[ lit "cn" ]} ∧
  (extract_ldap_attributes sample_console sample_resolve (lit "bad.ldif")
     sample_world).1 = Ok ∅.
Proof. split; by vm_compute. Qed.

(** The same holds for a path that is a directory. *)
Example directory_gives_no_attributes :
  (extract_ldap_attributes sample_console sample_resolve (lit "home")
     sample_world).1 = Ok ∅ ∧
  w_console (extract_ldap_attributes sample_console sample_resolve
               (lit "home") sample_world).2 =
    [ErrorReadingFile (IsADirectoryError (lit "home"))].
Proof. split; by vm_compute. Qed.

Lemma indented_hash_is_no_comment_witness :
  let line := lit "  " ++ HASH :: lit "note: x" ++ [LF] in
  ¬ is_comment line ∧
  ∃ prefix a tail,
    prefix_before_colon line prefix ∧
    trimmed prefix a ∧ a = HASH :: tail ∧
    (∀ collected, scan_line line collected = {[a]} ∪ collected) ∧
    ∃ attributes w',
      extract_ldap_attributes sample_console sample_resolve
        (lit "indented.ldif") sample_world = (Ok attributes, w') ∧
      a ∈ attributes.
Proof.
  apply (indented_hash_is_no_comment sample_console sample_resolve
           sample_world (lit "indented.ldif") indented_file (lit "  ")
           (lit "note: x" ++ [LF])).
  - by vm_compute.
  - done.
  - by repeat constructor.
  - apply str_in_char. by vm_compute.
  - vm_compute. constructor.
Defined.

(** An attribute that matches three keywords is listed once. *)
Example admin_key_backup_once :
  interesting_of ascii_lower {[ lit "AdminKeyBackup"; lit "cn" ]}
  = [lit "AdminKeyBackup"].
Proof. by vm_compute. Qed.

Lemma find_interesting_any_order_witness :
  (find_interesting_attributes ascii_lower
     {[ lit "userPassword"; lit "legacyFlag" ]} sample_world).1 =
  Ok (sorted (filter (λ attr, matches_keyword ascii_lower attr = true)
                     [lit "userPassword"; lit "legacyFlag"])).
Proof.
  apply (find_interesting_any_order ascii_lower
           {[ lit "userPassword"; lit "legacyFlag" ]}
           [lit "userPassword"; lit "legacyFlag"] sample_world).
  vm_compute. first [reflexivity | apply perm_swap].
Defined.


(** The output may even be the dump itself, under another name: it is
    read first and then overwritten with the attribute names. *)
Example output_over_input :
  let w' := (main sample_console sample_resolve sample_stat ascii_lower
               (Arguments_ (lit "dump.ldif") (Some (lit "./dump.ldif")))
               sample_world).2 in
  f_data <$> (match w_fs w' !! lit "dump.ldif" with
              | Some (Regular f) => Some f
              | _ => None
              end)
  = Utf8.encode (one_per_line [lit "cn"; lit "legacyFlag"; lit "userPassword"]).
Proof. vm_compute. reflexivity. Qed.

(** A dump with an interesting attribute whose name holds a closing tag:
    [main] ends with [MarkupError] when it lists the attribute, before it
    looks at [args.output]; nothing is written. *)
Example tagged_attribute_stops_main :
  let run := main sample_console sample_resolve sample_stat ascii_lower
               (Arguments_ (lit "tagged.ldif") (Some (lit "out.txt")))
               sample_world in
  run.1 = Raised MarkupError ∧
  w_fs run.2 = w_fs sample_world ∧
  w_console run.2 =
    [Banner; AnalysisComplete; Statistics 2 1 (lit "tagged.ldif");
     InterestingHeader].
Proof. vm_compute. done. Qed.

Lemma main_output_refused_witness :
  ∃ e w',
    main sample_console sample_resolve sample_stat ascii_lower
         (Arguments_ (lit "dump.ldif") (Some (lit "home")))
         sample_world = (Raised e, w') ∧
    w_fs w' = w_fs sample_world ∧
    ∀ path, SavedTo path ∈ w_console w' → SavedTo path ∈ w_console sample_world.
Proof.
  apply (main_output_refused sample_console sample_resolve sample_stat
           ascii_lower (lit "dump.ldif") (lit "home") sample_world).
  - by vm_compute.
  - done.
  - by vm_compute.
Defined.

(** A path with a closing tag at which nothing exists: the not-found
    message cannot be printed, and [MarkupError] leaves [main]. *)
Lemma main_missing_input_unprinted_witness :
  main sample_console sample_resolve sample_stat ascii_lower
       (Arguments_ (lit "zz[/b].ldif") (Some (lit "out.txt"))) sample_world =
    (Raised MarkupError,
     World (w_fs sample_world) (w_create_error sample_world)
           (w_console sample_world ++ [Banner]) (w_progress sample_world)).
Proof.
  apply (main_missing_input_unprinted sample_console sample_resolve
           sample_stat ascii_lower
           (Arguments_ (lit "zz[/b].ldif") (Some (lit "out.txt")))
           sample_world MarkupError); reflexivity.
Defined.

Lemma main_missing_input_reported_witness :
  main sample_console sample_resolve sample_stat ascii_lower
       (Arguments_ (lit "nothing.ldif") (Some (lit "out.txt"))) sample_world =
    (Ok (), World (w_fs sample_world) (w_create_error sample_world)
                  (w_console sample_world ++
                     [Banner; FileNotFound (lit "nothing.ldif")])
                  (w_progress sample_world)).
Proof.
  apply (main_missing_input_reported sample_console sample_resolve
           sample_stat ascii_lower
           (Arguments_ (lit "nothing.ldif") (Some (lit "out.txt")))
           sample_world); reflexivity.
Defined.

(** The empty path names no file that can be opened, but [Path('')] is
    the current directory, which exists: [main] does not report the input
    as missing; it runs the extraction, reports the failed read and
    writes an empty output. *)
Example empty_path_is_not_missing :
  let run := main sample_console sample_resolve sample_stat ascii_lower
               (Arguments_ [] (Some (lit "out.txt"))) sample_world in
  run.1 = Ok () ∧
  w_console run.2 =
    [Banner; ErrorReadingFile (FileNotFoundError []); AnalysisComplete;
     Statistics 0 0 []; SavedTo (lit "out.txt")] ∧
  w_fs run.2 !! lit "out.txt" = Some (Regular (File true true [] None)).
Proof. vm_compute. done. Qed.

(** A name that is too long for the file system: [exists] raises, and the
    exception leaves [main] after the banner. *)
Example long_name_raises :
  main sample_console sample_resolve sample_stat ascii_lower
       (Arguments_ (replicate 300 97) None) sample_world =
    (Raised (OSError 36), say sample_world Banner).
Proof. vm_compute. reflexivity. Qed.

Lemma example_dump_witness :
  ∃ w1 w2,
    extract_ldap_attributes sample_console sample_resolve (lit "dump.ldif")
      sample_world =
      (Ok {[ lit "cn"; lit "userPassword"; lit "legacyFlag" ]}, w1) ∧
    find_interesting_attributes ascii_lower
      {[ lit "cn"; lit "userPassword"; lit "legacyFlag" ]} w1 =
      (Ok [lit "legacyFlag"; lit "userPassword"], w2).
Proof.
  apply (example_dump sample_console sample_resolve ascii_lower sample_world
           (lit "dump.ldif") sample_file).
  - done.
  - by vm_compute.
  - by vm_compute.
Defined.

Lemma extracted_names_well_formed_witness :
  lit "userPassword" ≠ [] ∧ (COLON ∉ lit "userPassword") ∧
  (LF ∉ lit "userPassword") ∧ (CR ∉ lit "userPassword") ∧
  no_space_at_ends (lit "userPassword").
Proof.
  apply (extracted_names_well_formed sample_console sample_resolve
           (lit "dump.ldif") sample_world
           {[ lit "cn"; lit "userPassword"; lit "legacyFlag" ]}).
  - vm_compute. reflexivity.
  - apply elem_of_union_l, elem_of_union_r. by apply elem_of_singleton.
Defined.

Lemma extract_ignores_line_order_witness :
  (extract_ldap_attributes sample_console sample_resolve (lit "dump.ldif")
     sample_world).1 =
  (extract_ldap_attributes sample_console sample_resolve (lit "shuffled.ldif")
     second_world).1.
Proof.
  apply (extract_ignores_line_order sample_console sample_resolve
           sample_world second_world _ _ sample_file shuffled_file);
    [by vm_compute | by vm_compute | vm_compute; reflexivity].
Defined.

Lemma extract_ignores_values_witness :
  (extract_ldap_attributes sample_console sample_resolve (lit "dump.ldif")
     sample_world).1 =
  (extract_ldap_attributes sample_console sample_resolve (lit "redacted.ldif")
     second_world).1.
Proof.
  apply (extract_ignores_values sample_console sample_resolve
           sample_world second_world _ _ sample_file redacted_file);
    [by vm_compute | by vm_compute |].
  replace (file_lines sample_file)
    with [lit "cn" ++ COLON :: lit " John" ++ [LF];
          lit "userPassword" ++ COLON :: lit " xyz" ++ [LF];
          lit "# comment" ++ [LF]; lit "mail" ++ [LF];
          lit "legacyFlag" ++ COLON :: lit " true" ++ [LF]]
    by (by vm_compute).
  replace (file_lines redacted_file)
    with [lit "cn" ++ COLON :: [LF];
          lit "userPassword" ++ COLON :: lit " ****" ++ [LF];
          lit "# comment" ++ [LF]; lit "mail" ++ [LF];
          lit "legacyFlag" ++ COLON :: lit "false:0" ++ [LF]]
    by (by vm_compute).
  assert (∀ s, str_in [COLON] s = false → COLON ∉ s) as Hno.
  { intros s Hs Hin%str_in_char. congruence. }
  repeat match goal with
         | |- Forall2 _ (_ :: _) (_ :: _) => apply List.Forall2_cons
         | |- Forall2 _ [] [] => apply List.Forall2_nil
         end;
    try (by left);
    right; eexists _, _, _; (split_and!; [|reflexivity|reflexivity]);
    by apply Hno.
Defined.

Lemma extract_ignores_line_ends_witness :
  (extract_ldap_attributes sample_console sample_resolve (lit "dump.ldif")
     sample_world).1 =
  (extract_ldap_attributes sample_console sample_resolve (lit "crlf.ldif")
     second_world).1.
Proof.
  apply (extract_ignores_line_ends sample_console sample_resolve
           sample_world second_world _ _ sample_file crlf_file); by vm_compute.
Defined.

Lemma main_touches_output_only_witness :
  w_fs (main sample_console sample_resolve sample_stat ascii_lower
          (Arguments_ (lit "dump.ldif") (Some (lit "out.txt")))
          sample_world).2 !! lit "dump.ldif"
  = w_fs sample_world !! lit "dump.ldif".
Proof.
  apply (main_touches_output_only sample_console sample_resolve sample_stat
           ascii_lower (Arguments_ (lit "dump.ldif") (Some (lit "out.txt")))
           sample_world (lit "dump.ldif")).
  intros output [= <-]. by vm_compute.
Defined.

Lemma read_failure_empties_output_witness :
  ∃ w' f',
    main sample_console sample_resolve sample_stat ascii_lower
         (Arguments_ (lit "bad.ldif") (Some (lit "dump.ldif")))
         sample_world = (Ok (), w') ∧
    w_fs w' !! lit "dump.ldif" = Some (Regular f') ∧ f_data f' = [] ∧
    w_console w' =
      w_console sample_world ++
        [Banner; ErrorReadingFile (OSError 5); AnalysisComplete;
         Statistics 0 0 (lit "bad.ldif"); SavedTo (lit "dump.ldif")].
Proof.
  apply (read_failure_empties_output sample_console sample_resolve
           sample_stat ascii_lower (lit "bad.ldif") (lit "dump.ldif")
           sample_world (OSError 5)).
  - by apply (fails_during_scan _ _ _ faulty_file 1%nat); vm_compute.
  - vm_compute. reflexivity.
  - done.
  - by vm_compute.
  - reflexivity.
Defined.

Lemma save_stops_at_unencodable_witness :
  save_raw_output sample_resolve (lit "out.txt")
    {[ lit "cn"; [0xD800]; lit "mail" ]} [] sample_world =
    (Raised UnicodeEncodeError,
     store sample_resolve sample_world (lit "out.txt")
           (map Utf8.byte_of (one_per_line [lit "cn"; lit "mail"]))).
Proof.
  apply (save_stops_at_unencodable sample_resolve (lit "out.txt")
           {[ lit "cn"; [0xD800]; lit "mail" ]} [] sample_world
           [lit "cn"; lit "mail"] [] [0xD800]); by vm_compute.
Defined.

Lemma output_holds_no_attribute_witness :
  let w' := (main sample_console sample_resolve sample_stat ascii_lower
               (Arguments_ (lit "dump.ldif") (Some (lit "out.txt")))
               sample_world).2 in
  (∀ attributes,
     (extract_ldap_attributes sample_console sample_resolve (lit "out.txt")
        w').1 = Ok attributes → attributes = ∅) ∧
  (w_fs sample_world !! lit "out.txt" = None →
   (extract_ldap_attributes sample_console sample_resolve (lit "out.txt")
      w').1 = Ok ∅).
Proof.
  apply (output_holds_no_attribute sample_console sample_resolve sample_stat
           ascii_lower (lit "dump.ldif") (lit "out.txt") sample_world).
  - vm_compute. reflexivity.
  - done.
  - by vm_compute.
  - vm_compute. reflexivity.
Defined.

Lemma statistics_agree_with_output_witness :
  ∃ r w' f' total interesting shown,
    main sample_console sample_resolve sample_stat ascii_lower
         (Arguments_ (lit "dump.ldif") (Some (lit "out.txt")))
         sample_world = (r, w') ∧
    w_console w' = w_console sample_world ++ shown ∧
    Statistics total interesting (lit "dump.ldif") ∈ shown ∧
    (∀ n m path, Statistics n m path ∈ shown →
                 n = total ∧ m = interesting ∧ path = lit "dump.ldif") ∧
    (interesting ≤ total)%nat ∧
    w_fs w' !! lit "out.txt" = Some (Regular f') ∧
    length (readlines (Utf8.decode_ignore (f_data f'))) = total.
Proof.
  apply (statistics_agree_with_output sample_console sample_resolve
           sample_stat ascii_lower (lit "dump.ldif") (lit "out.txt")
           sample_world).
  - vm_compute. reflexivity.
  - done.
  - by vm_compute.
  - vm_compute. reflexivity.
Defined.

Lemma main_flags_matching_names_witness :
  ∃ attributes shown,
    (extract_ldap_attributes sample_console sample_resolve (lit "dump.ldif")
       sample_world).1 = Ok attributes ∧
    w_console (main sample_console sample_resolve sample_stat ascii_lower
                 (Arguments_ (lit "dump.ldif") None) sample_world).2
      = w_console sample_world ++ shown ∧
    (∀ a, InterestingItem a ∈ shown ↔
          a ∈ attributes ∧
          ∃ keyword, keyword ∈ keywords ∧
                     is_substring keyword (ascii_lower a)) ∧
    (InterestingHeader ∈ shown ↔ ∃ a, InterestingItem a ∈ shown).
Proof.
  apply (main_flags_matching_names sample_console sample_resolve sample_stat
           ascii_lower (Arguments_ (lit "dump.ldif") None) sample_world).
  - vm_compute. reflexivity.
  - vm_compute. reflexivity.
Defined.

Lemma main_again_changes_nothing_witness :
  let args := Arguments_ (lit "dump.ldif") (Some (lit "out.txt")) in
  let w1 := (main sample_console sample_resolve sample_stat ascii_lower args
               sample_world).2 in
  (main sample_console sample_resolve sample_stat ascii_lower args w1).1 =
    (main sample_console sample_resolve sample_stat ascii_lower args
       sample_world).1 ∧
  w_fs (main sample_console sample_resolve sample_stat ascii_lower args w1).2
    = w_fs w1.
Proof.
  apply (main_again_changes_nothing sample_console sample_resolve sample_stat
           ascii_lower (lit "dump.ldif") (lit "out.txt") sample_world).
  - vm_compute. reflexivity.
  - done.
  - by vm_compute.
  - vm_compute. reflexivity.
  - by vm_compute.
Defined.

Lemma main_flags_only_matching_names_witness :
  ∃ attributes,
    (extract_ldap_attributes sample_console sample_resolve (lit "dump.ldif")
       sample_world).1 = Ok attributes ∧
    lit "userPassword" ∈ attributes ∧
    ∃ keyword, keyword ∈ keywords ∧
               is_substring keyword (ascii_lower (lit "userPassword")).
Proof.
  apply (main_flags_only_matching_names sample_console sample_resolve
           sample_stat ascii_lower (Arguments_ (lit "dump.ldif") None)
           sample_world
           [Banner; AnalysisComplete; Statistics 3 2 (lit "dump.ldif");
            InterestingHeader; InterestingItem (lit "legacyFlag");
            InterestingItem (lit "userPassword")] (lit "userPassword")).
  - vm_compute. reflexivity.
  - do 5 right. left.
Defined.
